(** * Gear ratio search and shift sequence planner

    A shallow embedding of [gearcombo.py] (closest gear combination) and
    [shiftseq.py] (shift sequence generator), and the properties of the
    planner proved over it.

    Python integers are [Z].  Python floats are kept behind the interface
    [PyFloat], which lists exactly the float operations the two scripts
    perform; it has two instances, IEEE binary64 (what CPython computes
    with) and exact rationals, and both obey the order laws [PyFloatLaws]
    that the search for the goal relies on.  Python exceptions are values
    of [exn] and a function that may raise returns a [result].  The cog
    lists of the two modules are section variables; [default_front] and
    [default_rear] are the lists of the scripts. *)

From Stdlib Require Import ZArith List Bool String Lia.
From Stdlib Require Import QArith.
From Stdlib Require Import Floats.
From Equations Require Import Equations.
Import ListNotations.

Open Scope Z_scope.

(** ** Exceptions and results *)

Inductive exn : Type :=
| ValueError (msg : string)
| UnboundLocalError (name : string)
| TypeError
| IndexError.

Inductive result (A : Type) : Type :=
| Ok (a : A)
| Raise (e : exn).

Arguments Ok {A} a.
Arguments Raise {A} e.

Definition bind {A B : Type} (c : result A) (k : A -> result B) : result B :=
  match c with
  | Ok a => k a
  | Raise e => Raise e
  end.

Notation "x <- c ;; k" := (bind c (fun x => k))
  (at level 61, c at next level, right associativity).

(** A value together with the equation that says where it came from, for
    the case analyses of a recursive definition. *)
Definition inspect {A : Type} (a : A) : {b : A | a = b} := exist _ a eq_refl.

(** ** The float operations the scripts use

    The scripts divide by [float( rear )] only, for the rear cogs of the
    cog set; these are tooth counts and none is zero, so [fdiv] is Python's
    [/] away from the zero divisor, where Python raises. *)

Class PyFloat (F : Type) : Type := {
  float_of_int : Z -> F;      (* float( n ), and the literals 0.0, 999999.0 *)
  fdiv : F -> F -> F;         (* a / b *)
  fsub : F -> F -> F;         (* a - b *)
  fltb : F -> F -> bool;      (* a < b *)
  fleb : F -> F -> bool       (* a <= b *)
}.

(** The facts about float order and subtraction that rule out a goal above
    the target ratio. *)
Class PyFloatLaws (F : Type) `{PyFloat F} : Prop := {
  fltb_fleb : forall a b : F, fltb a b = true -> fleb b a = false;
  fltb_fleb_trans : forall a b c : F,
      fltb a b = true -> fleb b c = true -> fltb a c = true;
  fsub_nonneg : forall a b : F,
      fleb (float_of_int 0) (fsub a b) = true -> fleb b a = true
}.

(** IEEE binary64.  [of_uint63] rounds to nearest, as [float()] does; the
    conversion is the one of Python for integers below 2^63 in absolute
    value. *)
Definition float_of_Z (n : Z) : float :=
  match n with
  | Z0 => PrimFloat.zero
  | Zpos _ => PrimFloat.of_uint63 (Uint63.of_Z n)
  | Zneg p => PrimFloat.opp (PrimFloat.of_uint63 (Uint63.of_Z (Zpos p)))
  end.

#[export] Instance binary64 : PyFloat float := {
  float_of_int := float_of_Z;
  fdiv := PrimFloat.div;
  fsub := PrimFloat.sub;
  fltb := PrimFloat.ltb;
  fleb := PrimFloat.leb
}.

(** A rounded result that is not zero: it carries the sign. *)
Definition signed_nonzero (sx : bool) (r : spec_float) : Prop :=
  r = S754_infinity sx \/ exists m e, r = S754_finite sx m e.

(** Exact rationals. *)
#[export] Instance exact_Q : PyFloat Q := {
  float_of_int := inject_Z;
  fdiv := Qdiv;
  fsub := Qminus;
  fltb := fun a b => negb (Qle_bool b a);
  fleb := Qle_bool
}.

(** ** Python sequences *)

(** [l[i]]: a negative index counts from the end, anything else out of
    range raises [IndexError]. *)
Definition getitem {A : Type} (l : list A) (i : Z) : result A :=
  let n := Z.of_nat (List.length l) in
  let j := if i <? 0 then i + n else i in
  if (0 <=? j) && (j <? n) then
    match nth_error l (Z.to_nat j) with
    | Some a => Ok a
    | None => Raise IndexError
    end
  else Raise IndexError.

(** [enumerate( l )] *)
Definition enumerate {A : Type} (l : list A) : list (Z * A) :=
  combine (map Z.of_nat (seq 0 (List.length l))) l.

(** [enumerate( l, k )], the enumeration started at index [k]. *)
Definition enumerate_from {A : Type} (k : nat) (l : list A) : list (Z * A) :=
  combine (map Z.of_nat (seq k (List.length l))) l.

(** [x in l] on integers *)
Definition contains (x : Z) (l : list Z) : bool := existsb (Z.eqb x) l.

(** A grid coordinate, [( findex, rindex )]. *)
Definition coord : Type := (Z * Z)%type.

Definition coord_eqb (a b : coord) : bool :=
  (fst a =? fst b) && (snd a =? snd b).

Definition opt_coord_eqb (a b : option coord) : bool :=
  match a, b with
  | Some x, Some y => coord_eqb x y
  | None, None => true
  | _, _ => false
  end.

(** ** gearcombo.py *)

Module Gearcombo.
Section Gearcombo.
Context {F : Type} `{PyFloat F}.
Variables _FRONT_COGS _REAR_COGS : list Z.

(** The two locals of [compute_combo] that the loops update. *)
Record best : Type := Best { min_delta : F; min_combo : Z * Z }.

(** The body of the inner loop. *)
Definition try_combo (ratio : F) (front : Z) (st : best) (rear : Z) : best :=
  let current_ratio := fdiv (float_of_int front) (float_of_int rear) in
  let delta := fsub ratio current_ratio in
  if fleb (float_of_int 0) delta && fltb delta (min_delta st)
  then Best delta (front, rear)
  else st.

Definition compute_combo (ratio : F) : result (Z * Z) :=
  if fleb ratio (float_of_int 0)
  then Raise (ValueError "Invalid gear ratio '{}'"%string)
  else
    let st0 := Best (float_of_int 999999) (0, 0) in
    let st := fold_left
                (fun st front => fold_left (try_combo ratio front) _REAR_COGS st)
                _FRONT_COGS st0 in
    Ok (min_combo st).
End Gearcombo.
End Gearcombo.

(** ** shiftseq.py *)

Module Shiftseq.
Section Shiftseq.
Context {F : Type} `{PyFloat F}.
Variables _FRONT_COGS _REAR_COGS : list Z.

(** The table of all gearing combinations as gear ratios. *)
Definition _combos : list (list F) :=
  map (fun front =>
         map (fun rear => fdiv (float_of_int front) (float_of_int rear))
             _REAR_COGS)
      _FRONT_COGS.

Definition find_next (curr_y curr_x final_y final_x : Z) : result coord :=
  let next_y :=
    if curr_y <? final_y then curr_y + 1
    else if curr_y >? final_y then curr_y - 1
    else curr_y in
  let next_x :=
    if curr_x <? final_x then curr_x + 1
    else if curr_x >? final_x then curr_x - 1
    else curr_x in
  if negb (next_y =? curr_y) && negb (next_x =? curr_x) then
    row_x <- getitem _combos curr_y ;;
    delta_x <- getitem row_x next_x ;;
    row_y <- getitem _combos next_y ;;
    delta_y <- getitem row_y curr_x ;;
    if fltb delta_x delta_y
    then Ok (curr_y, next_x)
    else Ok (next_y, curr_x)
  else Ok (next_y, next_x).

(** Remaining single-axis steps between two coordinates. *)
Definition distance (a b : coord) : nat :=
  Z.to_nat (Z.abs (fst a - fst b) + Z.abs (snd a - snd b)).

(** A step from anywhere but the goal comes closer to the goal; this is
    what makes the loop below terminate. *)
Lemma find_next_closer (combo goal c : coord) :
  coord_eqb combo goal = false ->
  find_next (fst combo) (snd combo) (fst goal) (snd goal) = Ok c ->
  (distance c goal < distance combo goal)%nat.
Proof.
  destruct combo as [cy cx], goal as [gy gx].
  unfold coord_eqb, find_next, distance, bind. cbn [fst snd].
  rewrite andb_false_iff, !Z.eqb_neq, !Z.gtb_ltb. intros Hne.
  repeat match goal with
    | |- context [?a <? ?b] => destruct (Z.ltb_spec a b)
    | |- context [?a =? ?b] => destruct (Z.eqb_spec a b)
    | |- context [match getitem ?l ?i with _ => _ end] => destruct (getitem l i)
    | |- context [if fltb ?a ?b then _ else _] => destruct (fltb a b)
    end;
    cbn [negb andb]; intros Hstep; try discriminate;
    injection Hstep as <-; cbn [fst snd]; lia.
Qed.

(** The [while combo != goal] loop, with the list built so far. *)
Equations? shift_loop (combo goal : coord) (sequence : list coord)
  : result (list coord) by wf (distance combo goal) lt :=
  shift_loop combo goal sequence with inspect (coord_eqb combo goal) := {
    | exist _ true Heq => Ok sequence
    | exist _ false Hne with
        inspect (find_next (fst combo) (snd combo) (fst goal) (snd goal)) := {
        | exist _ (Ok c) Hstep => shift_loop c goal (sequence ++ [c])
        | exist _ (Raise e) Hraise => Raise e } }.
Proof. eapply find_next_closer; eassumption. Qed.

(** The three locals of [generate_shifts] that the search loops update. *)
Record scan : Type := Scan {
  min_delta : F;
  origin : option coord;
  goal : option coord
}.

(** The body of the inner loop, at front cog [( findex, front )] and rear
    cog [( rindex, rear )]. *)
Definition visit (ratio : F) (ifront irear : Z) (fcell : Z * Z)
           (st : scan) (rcell : Z * Z) : scan :=
  let '(findex, front) := fcell in
  let '(rindex, rear) := rcell in
  let st :=
    if (front =? ifront) && (rear =? irear)
    then Scan (min_delta st) (Some (findex, rindex)) (goal st)
    else st in
  let delta := fsub ratio (fdiv (float_of_int front) (float_of_int rear)) in
  if fleb (float_of_int 0) delta && fltb delta (min_delta st)
  then Scan delta (origin st) (Some (findex, rindex))
  else st.

(** The two nested [for] loops. *)
Definition search (ratio : F) (ifront irear : Z) : scan :=
  fold_left
    (fun st fcell =>
       fold_left (visit ratio ifront irear fcell) (enumerate _REAR_COGS) st)
    (enumerate _FRONT_COGS)
    (Scan (float_of_int 999999) None None).

(** In the two origin checks the message is formatted from [front] and
    [rear], which are local to the function (the [for] loops below bind
    them) and not yet bound there: evaluating the argument of [format]
    raises [UnboundLocalError] before [ValueError] is built.  With one of
    origin and goal [None], [origin + goal] raises [TypeError]. *)
Definition generate_shifts (ratio : F) (ifront irear : Z)
  : result (list coord) :=
  if fleb ratio (float_of_int 0)
  then Raise (ValueError "Invalid gear ratio '{}'"%string)
  else if negb (contains ifront _FRONT_COGS)
  then Raise (UnboundLocalError "front"%string)
  else if negb (contains irear _REAR_COGS)
  then Raise (UnboundLocalError "rear"%string)
  else
    let st := search ratio ifront irear in
    if opt_coord_eqb (origin st) (goal st) then Ok []
    else
      match origin st, goal st with
      | Some o, Some g =>
          combo <- find_next (fst o) (snd o) (fst g) (snd g) ;;
          shift_loop combo g [o; combo]
      | _, _ => Raise TypeError
      end.

(** *** Vocabulary for the properties below *)

(** The unit step of one axis toward its goal index. *)
Definition toward (curr final : Z) : Z :=
  if curr <? final then curr + 1
  else if curr >? final then curr - 1
  else curr.

(** The test of the inner loop on a candidate goal: [delta >= 0] and
    [delta < min_delta]. *)
Definition accepts (ratio min_delta : F) (front rear : Z) : bool :=
  let delta := fsub ratio (fdiv (float_of_int front) (float_of_int rear)) in
  fleb (float_of_int 0) delta && fltb delta min_delta.

(** The invocations of [generate_shifts] that pass its three checks. *)
Definition valid_call (ratio : F) (ifront irear : Z) : Prop :=
  fleb ratio (float_of_int 0) = false /\
  contains ifront _FRONT_COGS = true /\
  contains irear _REAR_COGS = true.

(** [_combos[ y ][ x ]] *)
Definition ratio_at (c : coord) : result F :=
  row <- getitem _combos (fst c) ;;
  getitem row (snd c).

(** [( _FRONT_COGS[ y ], _REAR_COGS[ x ] )], as [main] reads a step. *)
Definition cogs_of (c : coord) : result (Z * Z) :=
  front <- getitem _FRONT_COGS (fst c) ;;
  rear <- getitem _REAR_COGS (snd c) ;;
  Ok (front, rear).

(** The coordinates of the F x R grid. *)
Definition in_grid (c : coord) : Prop :=
  0 <= fst c < Z.of_nat (List.length _FRONT_COGS) /\
  0 <= snd c < Z.of_nat (List.length _REAR_COGS).

(** One shift: one unit on exactly one axis. *)
Definition unit_step (a b : coord) : Prop :=
  (fst a = fst b /\ Z.abs (snd a - snd b) = 1) \/
  (snd a = snd b /\ Z.abs (fst a - fst b) = 1).

(** Every two consecutive entries are one shift apart. *)
Fixpoint single_steps (l : list coord) : Prop :=
  match l with
  | a :: (b :: _) as tl => unit_step a b /\ single_steps tl
  | _ => True
  end.

(** [walk goal a l]: [l] lists the coordinates that the step rule
    produces from [a] until it produces [goal]. *)
Inductive walk (goal : coord) : coord -> list coord -> Prop :=
| walk_done : walk goal goal []
| walk_step (a c : coord) (l : list coord) :
    coord_eqb a goal = false ->
    find_next (fst a) (snd a) (fst goal) (snd goal) = Ok c ->
    walk goal c l ->
    walk goal a (c :: l).

(** The step rule applied [n] times. *)
Fixpoint iterate_next (n : nat) (combo goal : coord) : result coord :=
  match n with
  | O => Ok combo
  | S k =>
      c <- find_next (fst combo) (snd combo) (fst goal) (snd goal) ;;
      iterate_next k c goal
  end.

End Shiftseq.
End Shiftseq.

(** What the locals of [compute_combo] and those of the search of
    [generate_shifts] have in common after the same cells: the same
    [min_delta], and the cogs of [goal] in [min_combo]. *)
Definition same_choice {F : Type} `{PyFloat F} (FRONT REAR : list Z)
           (b : @Gearcombo.best F) (s : @Shiftseq.scan F) : Prop :=
  Gearcombo.min_delta b = Shiftseq.min_delta s /\
  match Shiftseq.goal s with
  | Some g => Shiftseq.cogs_of FRONT REAR g = Ok (Gearcombo.min_combo b)
  | None => Gearcombo.min_combo b = (0, 0)
  end.

(** ** The cog set of the two scripts *)

Definition default_front : list Z := [38; 30].
Definition default_rear : list Z := [28; 23; 19; 16].

(** ** Vocabulary for the scan and the path *)

(** The float order facts behind the choice of the closest combination:
    [<] is a strict order, and two numbers that each compare with some
    number compare with each other. *)
Class PyFloatOrder (F : Type) `{PyFloat F} : Prop := {
  fltb_irrefl : forall a : F, fltb a a = false;
  fltb_trans : forall a b c : F,
      fltb a b = true -> fltb b c = true -> fltb a c = true;
  fleb_total : forall z c a b : F,
      fleb z a = true -> fltb c b = true -> fltb a b = false -> fleb b a = true
}.

(** [-len( l ) <= i < len( l )]: the indexes at which [l[i]] is defined. *)
Definition indexable {A : Type} (l : list A) (i : Z) : Prop :=
  - Z.of_nat (List.length l) <= i < Z.of_nat (List.length l).

(** The cells [( ( findex, front ), ( rindex, rear ) )] in the order in
    which the two nested [for] loops visit them: front index ascending,
    then rear index ascending. *)
Definition cells (FRONT REAR : list Z) : list ((Z * Z) * (Z * Z)) :=
  list_prod (enumerate FRONT) (enumerate REAR).

(** The coordinate of a cell. *)
Definition cell_coord (c : (Z * Z) * (Z * Z)) : coord :=
  (fst (fst c), fst (snd c)).

(** [ratio - ( front / float( rear ) )], the delta of a cell. *)
Definition delta_of {F : Type} `{PyFloat F} (ratio : F) (front rear : Z) : F :=
  fsub ratio (fdiv (float_of_int front) (float_of_int rear)).

Definition cell_delta {F : Type} `{PyFloat F} (ratio : F)
           (c : (Z * Z) * (Z * Z)) : F :=
  delta_of ratio (snd (fst c)) (snd (snd c)).

(** [c] lies between [a] and [g] on one axis. *)
Definition between (a g c : Z) : Prop := Z.min a g <= c <= Z.max a g.

(** [c] lies in the rectangle spanned by [o] and [g]. *)
Definition in_box (o g c : coord) : Prop :=
  between (fst o) (fst g) (fst c) /\ between (snd o) (snd g) (snd c).

(** ** The entry points of the two scripts

    [main] after [parse_args], up to the text of the message: the model
    returns the values that [main] passes to [format] instead of printing
    them.  [main] catches nothing, so an exception of the function it calls
    ends it; its own divisions raise [ZeroDivisionError] on a zero rear
    cog. *)

Inductive failure : Type :=
| Uncaught (e : exn)
| ZeroDivisionError.

Inductive outcome (A : Type) : Type :=
| Returns (a : A)
| Fails (f : failure).

Arguments Returns {A} a.
Arguments Fails {A} f.

Definition outcome_bind {A B : Type} (c : outcome A) (k : A -> outcome B)
  : outcome B :=
  match c with
  | Returns a => k a
  | Fails f => Fails f
  end.

Definition outcome_of {A : Type} (c : result A) : outcome A :=
  match c with
  | Ok a => Returns a
  | Raise e => Fails (Uncaught e)
  end.

(** [front / float( rear )] on integers, with Python's error on the zero
    divisor. *)
Definition ratio_of {F : Type} `{PyFloat F} (front rear : Z) : outcome F :=
  if rear =? 0 then Fails ZeroDivisionError
  else Returns (fdiv (float_of_int front) (float_of_int rear)).

Module GearcomboMain.
Section GearcomboMain.
Context {F : Type} `{PyFloat F}.
Variables _FRONT_COGS _REAR_COGS : list Z.

(** The four fields of the message. *)
Record message : Type := Message {
  goal : F;
  front : Z;
  rear : Z;
  final : F
}.

Definition main (ratio : F) : outcome message :=
  outcome_bind (outcome_of (Gearcombo.compute_combo _FRONT_COGS _REAR_COGS ratio))
    (fun combo =>
       let '(front, rear) := combo in
       outcome_bind (ratio_of front rear)
         (fun final => Returns (Message ratio front rear final))).
End GearcomboMain.
End GearcomboMain.

Module ShiftseqMain.
Section ShiftseqMain.
Context {F : Type} `{PyFloat F}.
Variables _FRONT_COGS _REAR_COGS : list Z.

(** One line of the sequence: [offset + 1], the two cogs and their
    ratio. *)
Record step_line : Type := StepLine {
  number : Z;
  front : Z;
  rear : Z;
  ratio : F
}.

(** What is printed: the one-line message when no shift is needed, or the
    fields of the long message. *)
Inductive printed : Type :=
| Achieved (front rear : Z) (ratio : F)
| Shifted (goal : F) (ifront irear ffront frear : Z) (steps : list step_line).

(** The body of the loop over [enumerate( sequence )]. *)
Definition format_step (cell : Z * coord) : outcome step_line :=
  let '(offset, step) := cell in
  outcome_bind (outcome_of (getitem _FRONT_COGS (fst step))) (fun front =>
  outcome_bind (outcome_of (getitem _REAR_COGS (snd step))) (fun rear =>
  outcome_bind (ratio_of front rear) (fun r =>
  Returns (StepLine (offset + 1) front rear r)))).

(** The loop: the lines in order, up to the first failure. *)
Fixpoint format_steps (l : list (Z * coord)) : outcome (list step_line) :=
  match l with
  | [] => Returns []
  | cell :: tl =>
      outcome_bind (format_step cell) (fun line =>
      outcome_bind (format_steps tl) (fun lines =>
      Returns (line :: lines)))
  end.

Definition main (ratio : F) (front rear : Z) : outcome printed :=
  outcome_bind
    (outcome_of (Shiftseq.generate_shifts _FRONT_COGS _REAR_COGS ratio front rear))
    (fun sequence =>
       if (Z.of_nat (List.length sequence) =? 0) then
         outcome_bind (ratio_of front rear) (fun r =>
         Returns (Achieved front rear r))
       else
         outcome_bind (outcome_of (getitem sequence (-1))) (fun final =>
         outcome_bind (format_steps (enumerate sequence)) (fun steps =>
         outcome_bind (outcome_of (getitem _FRONT_COGS (fst final))) (fun ffront =>
         outcome_bind (outcome_of (getitem _REAR_COGS (snd final))) (fun frear =>
         Returns (Shifted ratio front rear ffront frear steps)))))).
End ShiftseqMain.
End ShiftseqMain.

(** ** Properties of the sequence helpers *)

Section Sequences.
Context {A : Type}.

Lemma getitem_in_range (l : list A) (i : Z) :
  0 <= i < Z.of_nat (List.length l) ->
  exists a, getitem l i = Ok a /\ nth_error l (Z.to_nat i) = Some a.
Proof.
  intros Hi. unfold getitem.
  destruct (i <? 0) eqn:Eneg; [apply Z.ltb_lt in Eneg; lia |].
  replace ((0 <=? i) && (i <? Z.of_nat (List.length l))) with true
    by (symmetry; apply andb_true_iff; split;
        [apply Z.leb_le | apply Z.ltb_lt]; lia).
  destruct (nth_error l (Z.to_nat i)) as [a|] eqn:En.
  - exists a. split; reflexivity.
  - apply nth_error_None in En. lia.
Qed.

Lemma getitem_nth (l : list A) (n : nat) (a : A) :
  nth_error l n = Some a -> getitem l (Z.of_nat n) = Ok a.
Proof.
  intros Hn.
  assert (Hlt : (n < List.length l)%nat)
    by (apply nth_error_Some; rewrite Hn; discriminate).
  destruct (getitem_in_range l (Z.of_nat n)) as (b & Hb & Hb'); [lia |].
  rewrite Nat2Z.id in Hb'. congruence.
Qed.

Lemma enumerate_from_cons (k : nat) (a : A) (l : list A) :
  enumerate_from k (a :: l) = (Z.of_nat k, a) :: enumerate_from (S k) l.
Proof. reflexivity. Qed.

Lemma in_enumerate_from (k : nat) (l : list A) (i : Z) (a : A) :
  In (i, a) (enumerate_from k l) <->
  exists n, i = Z.of_nat (k + n) /\ nth_error l n = Some a.
Proof.
  revert k. induction l as [|b l IH]; intros k.
  - cbn. split; [tauto | intros (n & _ & Hn); destruct n; discriminate].
  - rewrite enumerate_from_cons. cbn [In]. rewrite IH. split.
    + intros [Heq | (n & -> & Hn)].
      * injection Heq as <- <-. exists 0%nat. rewrite Nat.add_0_r. now split.
      * exists (S n). split; [f_equal; lia | exact Hn].
    + intros ([|n] & -> & Hn).
      * left. cbn in Hn. injection Hn as ->. now rewrite Nat.add_0_r.
      * right. exists n. split; [f_equal; lia | exact Hn].
Qed.

Lemma in_enumerate (l : list A) (i : Z) (a : A) :
  In (i, a) (enumerate l) <->
  0 <= i < Z.of_nat (List.length l) /\ nth_error l (Z.to_nat i) = Some a.
Proof.
  change (enumerate l) with (enumerate_from 0 l).
  rewrite in_enumerate_from. split.
  - intros (n & -> & Hn). cbn [Nat.add]. rewrite Nat2Z.id.
    assert ((n < List.length l)%nat)
      by (apply nth_error_Some; rewrite Hn; discriminate).
    split; [lia | exact Hn].
  - intros (Hi & Hn). exists (Z.to_nat i). split; [cbn; lia | exact Hn].
Qed.

(** [l[-1]] is the last entry. *)
Lemma getitem_last (l : list A) (a : A) : getitem (l ++ [a]) (-1) = Ok a.
Proof.
  unfold getitem. rewrite length_app, Nat.add_1_r. cbn [List.length Z.ltb Z.compare].
  replace (-1 + Z.of_nat (S (List.length l))) with (Z.of_nat (List.length l)) by lia.
  replace ((0 <=? Z.of_nat (List.length l)) &&
           (Z.of_nat (List.length l) <? Z.of_nat (S (List.length l)))) with true
    by (symmetry; apply andb_true_iff; split;
        [apply Z.leb_le | apply Z.ltb_lt]; lia).
  rewrite Nat2Z.id, nth_error_app2, Nat.sub_diag by lia. reflexivity.
Qed.

Lemma in_enumerate_getitem (l : list A) (i : Z) (a : A) :
  In (i, a) (enumerate l) ->
  0 <= i < Z.of_nat (List.length l) /\ getitem l i = Ok a.
Proof.
  intros Hin. apply in_enumerate in Hin as (Hi & Hn). split; [exact Hi |].
  apply getitem_nth in Hn. now rewrite Z2Nat.id in Hn by lia.
Qed.
End Sequences.

Section Folds.
Context {A B : Type}.

(** A property of the loop state that every iteration preserves holds
    when the loop is over. *)
Lemma fold_left_preserves (f : A -> B -> A) (P : A -> Prop) (l : list B) :
  (forall a x, In x l -> P a -> P (f a x)) ->
  forall a, P a -> P (fold_left f l a).
Proof.
  induction l as [|x l IH]; intros Hf a Ha; cbn; [exact Ha |].
  apply IH.
  - intros a' y Hy. apply Hf. now right.
  - apply Hf; [now left | exact Ha].
Qed.

(** So does one that some iteration establishes and all preserve, both
    under an invariant [J] of the loop. *)
Lemma fold_left_establishes (f : A -> B -> A) (J P : A -> Prop) (l : list B) :
  (forall a x, In x l -> J a -> J (f a x)) ->
  (forall a x, In x l -> J a -> P a -> P (f a x)) ->
  (exists x, In x l /\ forall a, J a -> P (f a x)) ->
  forall a, J a -> P (fold_left f l a).
Proof.
  intros HJ HP (x & Hx & Hest) a Ha.
  apply in_split in Hx as (l1 & l2 & ->).
  rewrite fold_left_app. cbn [fold_left].
  assert (HJ1 : J (fold_left f l1 a)).
  { apply fold_left_preserves; [| exact Ha].
    intros a' y Hy. apply HJ. apply in_or_app. now left. }
  assert (Hin : forall y, In y l2 -> In y (l1 ++ x :: l2))
    by (intros y Hy; apply in_or_app; right; now right).
  assert (HJx : J (f (fold_left f l1 a) x))
    by (apply HJ; [apply in_or_app; right; now left | exact HJ1]).
  apply (fold_left_preserves f (fun a => J a /\ P a)).
  - intros a' y Hy [Ja Pa]. split; [apply HJ | apply HP]; auto.
  - split; [exact HJx | now apply Hest].
Qed.

(** Two loops run in step, one over a list and one over its
    enumeration. *)
Lemma fold_left_enumerate_rel {C : Type}
      (f : A -> B -> A) (g : C -> Z * B -> C) (R : A -> C -> Prop)
      (l : list B) :
  (forall a c i x, In (i, x) (enumerate l) -> R a c -> R (f a x) (g c (i, x))) ->
  forall a c, R a c -> R (fold_left f l a) (fold_left g (enumerate l) c).
Proof.
  change (enumerate l) with (enumerate_from 0 l).
  generalize 0%nat as k.
  induction l as [|x l IH]; intros k Hstep a c HR; [exact HR |].
  rewrite enumerate_from_cons. cbn [fold_left].
  apply IH.
  - intros a' c' i y Hin. apply Hstep. rewrite enumerate_from_cons. now right.
  - apply Hstep; [rewrite enumerate_from_cons; now left | exact HR].
Qed.
End Folds.

(** ** The step rule *)

Section StepRule.
Context {F : Type} `{PyFloat F}.
Variables FRONT REAR : list Z.

Local Abbreviation find_next := (Shiftseq.find_next FRONT REAR).
Local Abbreviation ratio_at := (Shiftseq.ratio_at FRONT REAR).
Local Abbreviation cogs_of := (Shiftseq.cogs_of FRONT REAR).
Local Abbreviation in_grid := (Shiftseq.in_grid FRONT REAR).
Local Abbreviation toward := Shiftseq.toward.
Local Abbreviation unit_step := Shiftseq.unit_step.
Local Abbreviation distance := Shiftseq.distance.

Lemma toward_cases (curr final : Z) :
  (curr < final /\ toward curr final = curr + 1) \/
  (curr > final /\ toward curr final = curr - 1) \/
  (curr = final /\ toward curr final = curr).
Proof.
  unfold Shiftseq.toward.
  destruct (curr <? final) eqn:Elt; [apply Z.ltb_lt in Elt; lia |].
  apply Z.ltb_ge in Elt.
  destruct (curr >? final) eqn:Egt; [apply Z.gtb_lt in Egt; lia |].
  rewrite Z.gtb_ltb in Egt. apply Z.ltb_ge in Egt. lia.
Qed.

(** [find_next] in terms of the per-axis steps and the table reads. *)
Lemma find_next_unfold (curr_y curr_x final_y final_x : Z) :
  find_next curr_y curr_x final_y final_x =
  let next_y := toward curr_y final_y in
  let next_x := toward curr_x final_x in
  if negb (next_y =? curr_y) && negb (next_x =? curr_x) then
    delta_x <- ratio_at (curr_y, next_x) ;;
    delta_y <- ratio_at (next_y, curr_x) ;;
    if fltb delta_x delta_y then Ok (curr_y, next_x) else Ok (next_y, curr_x)
  else Ok (next_y, next_x).
Proof.
  unfold Shiftseq.find_next, Shiftseq.ratio_at, Shiftseq.toward.
  cbv zeta. cbn [fst snd].
  match goal with |- (if ?b then _ else _) = _ => destruct b; [| reflexivity] end.
  destruct (getitem (Shiftseq._combos FRONT REAR) curr_y) as [row_x|e];
    cbn [bind]; [| reflexivity].
  match goal with |- context [getitem row_x ?i] =>
    destruct (getitem row_x i) as [delta_x|e]; cbn [bind]; [| reflexivity]
  end.
  match goal with |- context [getitem (Shiftseq._combos FRONT REAR) ?i] =>
    destruct (getitem (Shiftseq._combos FRONT REAR) i) as [row_y|e];
      cbn [bind]; reflexivity
  end.
Qed.

Lemma ratio_at_in_grid (c : coord) :
  in_grid c ->
  exists front rear,
    cogs_of c = Ok (front, rear) /\
    ratio_at c = Ok (fdiv (float_of_int front) (float_of_int rear)).
Proof.
  intros [Hy Hx]. unfold Shiftseq.cogs_of, Shiftseq.ratio_at.
  destruct (getitem_in_range FRONT (fst c) Hy) as (front & Hf & Hfn).
  destruct (getitem_in_range REAR (snd c) Hx) as (rear & Hr & Hrn).
  exists front, rear. rewrite Hf, Hr. cbn [bind]. split; [reflexivity |].
  pose proof (getitem_nth _ _ _
    (map_nth_error
       (fun front => map (fun rear => fdiv (float_of_int front) (float_of_int rear)) REAR)
       _ _ Hfn)) as Grow.
  rewrite Z2Nat.id in Grow by lia.
  unfold Shiftseq._combos. rewrite Grow. cbn [bind].
  pose proof (getitem_nth _ _ _
    (map_nth_error
       (fun rear => fdiv (float_of_int front) (float_of_int rear))
       _ _ Hrn)) as Gcell.
  rewrite Z2Nat.id in Gcell by lia. exact Gcell.
Qed.

(** When at most one axis has to move, both per-axis steps are taken. *)
Lemma find_next_one_axis (curr_y curr_x final_y final_x : Z) :
  curr_y = final_y \/ curr_x = final_x ->
  find_next curr_y curr_x final_y final_x =
  Ok (toward curr_y final_y, toward curr_x final_x).
Proof.
  intros Hax. rewrite find_next_unfold. cbv zeta.
  destruct (toward_cases curr_y final_y) as [[? Ey]|[[? Ey]|[? Ey]]];
    destruct (toward_cases curr_x final_x) as [[? Ex]|[[? Ex]|[? Ex]]];
    try lia; rewrite Ey, Ex;
    rewrite ?Z.eqb_refl, ?andb_false_r; cbn [negb andb]; reflexivity.
Qed.

(** When both axes have to move, the rear axis moves if its ratio is
    strictly the smaller one, and the front axis moves otherwise. *)
Lemma find_next_both_axes (curr_y curr_x final_y final_x : Z)
      (delta_x delta_y : F) :
  curr_y <> final_y -> curr_x <> final_x ->
  ratio_at (curr_y, toward curr_x final_x) = Ok delta_x ->
  ratio_at (toward curr_y final_y, curr_x) = Ok delta_y ->
  find_next curr_y curr_x final_y final_x =
  Ok (if fltb delta_x delta_y
      then (curr_y, toward curr_x final_x)
      else (toward curr_y final_y, curr_x)).
Proof.
  intros Hy Hx Hdx Hdy. rewrite find_next_unfold. cbv zeta.
  rewrite Hdx, Hdy. cbn [bind].
  replace (toward curr_y final_y =? curr_y) with false
    by (symmetry; apply Z.eqb_neq;
        destruct (toward_cases curr_y final_y) as [[? E]|[[? E]|[? E]]]; lia).
  replace (toward curr_x final_x =? curr_x) with false
    by (symmetry; apply Z.eqb_neq;
        destruct (toward_cases curr_x final_x) as [[? E]|[[? E]|[? E]]]; lia).
  cbn [negb andb]. now destruct (fltb delta_x delta_y).
Qed.

(** When both axes have to move, the table is read at the cell of the
    rear-axis move and at the cell of the front-axis move, and nowhere
    else. *)
Lemma find_next_reads (curr_y curr_x final_y final_x : Z) :
  curr_y <> final_y -> curr_x <> final_x ->
  find_next curr_y curr_x final_y final_x =
  (delta_x <- ratio_at (curr_y, toward curr_x final_x) ;;
   delta_y <- ratio_at (toward curr_y final_y, curr_x) ;;
   Ok (if fltb delta_x delta_y
       then (curr_y, toward curr_x final_x)
       else (toward curr_y final_y, curr_x))).
Proof.
  intros Hy Hx. rewrite find_next_unfold. cbv zeta.
  replace (toward curr_y final_y =? curr_y) with false
    by (symmetry; apply Z.eqb_neq;
        destruct (toward_cases curr_y final_y) as [[? E]|[[? E]|[? E]]]; lia).
  replace (toward curr_x final_x =? curr_x) with false
    by (symmetry; apply Z.eqb_neq;
        destruct (toward_cases curr_x final_x) as [[? E]|[[? E]|[? E]]]; lia).
  cbn [negb andb].
  destruct (ratio_at (curr_y, _)) as [dx|]; [| reflexivity].
  destruct (ratio_at (_, curr_x)) as [dy|]; [| reflexivity].
  cbn [bind]. now destruct (fltb dx dy).
Qed.

(** Whatever the step rule returns is the current coordinate or one of
    the two single-axis moves, never the diagonal one. *)
Lemma find_next_result (curr_y curr_x final_y final_x : Z) (c : coord) :
  find_next curr_y curr_x final_y final_x = Ok c ->
  (curr_y = final_y /\ c = (curr_y, toward curr_x final_x)) \/
  (curr_x = final_x /\ c = (toward curr_y final_y, curr_x)) \/
  (curr_y <> final_y /\ curr_x <> final_x /\
   (c = (curr_y, toward curr_x final_x) \/
    c = (toward curr_y final_y, curr_x))).
Proof.
  intros Hc.
  destruct (Z.eq_dec curr_y final_y) as [Ey|Ny].
  - left. split; [exact Ey |].
    rewrite find_next_one_axis in Hc by (now left).
    injection Hc as <-. f_equal.
    destruct (toward_cases curr_y final_y) as [[? E]|[[? E]|[? E]]]; lia.
  - destruct (Z.eq_dec curr_x final_x) as [Ex|Nx].
    + right; left. split; [exact Ex |].
      rewrite find_next_one_axis in Hc by (now right).
      injection Hc as <-. f_equal.
      destruct (toward_cases curr_x final_x) as [[? E]|[[? E]|[? E]]]; lia.
    + right; right. split; [exact Ny | split; [exact Nx |]].
      rewrite find_next_unfold in Hc. cbv zeta in Hc.
      replace (toward curr_y final_y =? curr_y) with false in Hc
        by (symmetry; apply Z.eqb_neq;
            destruct (toward_cases curr_y final_y) as [[? E]|[[? E]|[? E]]]; lia).
      replace (toward curr_x final_x =? curr_x) with false in Hc
        by (symmetry; apply Z.eqb_neq;
            destruct (toward_cases curr_x final_x) as [[? E]|[[? E]|[? E]]]; lia).
      cbn [negb andb] in Hc.
      destruct (ratio_at (curr_y, _)) as [dx|] in Hc; [|discriminate].
      destruct (ratio_at (_, curr_x)) as [dy|] in Hc; [|discriminate].
      cbn [bind] in Hc. destruct (fltb dx dy); injection Hc as <-; auto.
Qed.

(** A step from anywhere but the goal is one shift, uses up one unit of
    the remaining distance, and stays on the grid. *)
Lemma find_next_step (a g c : coord) :
  coord_eqb a g = false ->
  find_next (fst a) (snd a) (fst g) (snd g) = Ok c ->
  unit_step a c /\
  S (distance c g) = distance a g /\
  (in_grid a -> in_grid g -> in_grid c).
Proof.
  destruct a as [cy cx], g as [gy gx]. unfold coord_eqb. cbn [fst snd].
  intros Hne Hc.
  assert (Hne' : cy <> gy \/ cx <> gx).
  { destruct (Z.eq_dec cy gy) as [->|]; [| now left].
    destruct (Z.eq_dec cx gx) as [->|]; [| now right].
    now rewrite !Z.eqb_refl in Hne. }
  unfold Shiftseq.unit_step, Shiftseq.distance, Shiftseq.in_grid.
  apply find_next_result in Hc.
  destruct (toward_cases cy gy) as [[? Ey]|[[? Ey]|[? Ey]]];
    destruct (toward_cases cx gx) as [[? Ex]|[[? Ex]|[? Ex]]];
    rewrite Ey, Ex in Hc;
    destruct Hc as [[? ->]|[[? ->]|(? & ? & [-> | ->])]];
    cbn [fst snd]; lia.
Qed.

(** On the grid the step rule never fails. *)
Lemma find_next_total (a g : coord) :
  in_grid a -> in_grid g ->
  exists c, find_next (fst a) (snd a) (fst g) (snd g) = Ok c.
Proof.
  destruct a as [cy cx], g as [gy gx]. unfold Shiftseq.in_grid at 1 2.
  cbn [fst snd]. intros [Hay Hax] [Hgy Hgx].
  destruct (Z.eq_dec cy gy) as [Ey|Ny];
    [eexists; apply find_next_one_axis; now left |].
  destruct (Z.eq_dec cx gx) as [Ex|Nx];
    [eexists; apply find_next_one_axis; now right |].
  destruct (ratio_at_in_grid (cy, toward cx gx)) as (? & ? & _ & Hdx).
  { split; cbn [fst snd]; [lia |].
    destruct (toward_cases cx gx) as [[? E]|[[? E]|[? E]]]; lia. }
  destruct (ratio_at_in_grid (toward cy gy, cx)) as (? & ? & _ & Hdy).
  { split; cbn [fst snd]; [| lia].
    destruct (toward_cases cy gy) as [[? E]|[[? E]|[? E]]]; lia. }
  eexists. exact (find_next_both_axes _ _ _ _ _ _ Ny Nx Hdx Hdy).
Qed.
End StepRule.

(** ** The walk from the origin to the goal *)

Section Walk.
Context {F : Type} `{PyFloat F}.
Variables FRONT REAR : list Z.

Local Abbreviation find_next := (Shiftseq.find_next FRONT REAR).
Local Abbreviation shift_loop := (Shiftseq.shift_loop FRONT REAR).
Local Abbreviation iterate_next := (Shiftseq.iterate_next FRONT REAR).
Local Abbreviation walk := (Shiftseq.walk FRONT REAR).
Local Abbreviation in_grid := (Shiftseq.in_grid FRONT REAR).
Local Abbreviation single_steps := Shiftseq.single_steps.
Local Abbreviation distance := Shiftseq.distance.

Lemma coord_eqb_eq (a b : coord) : coord_eqb a b = true <-> a = b.
Proof.
  destruct a, b. unfold coord_eqb. cbn [fst snd].
  rewrite andb_true_iff, !Z.eqb_eq. split; [intros [-> ->] | intros [= -> ->]]; auto.
Qed.

Lemma coord_eqb_refl (a : coord) : coord_eqb a a = true.
Proof. now apply coord_eqb_eq. Qed.

Lemma coord_eqb_neq (a b : coord) : coord_eqb a b = false <-> a <> b.
Proof.
  rewrite <- coord_eqb_eq. destruct (coord_eqb a b); split; congruence.
Qed.

Lemma distance_zero (a g : coord) : distance a g = 0%nat <-> a = g.
Proof.
  destruct a, g. unfold Shiftseq.distance. cbn [fst snd]. split.
  - intros Hd. f_equal; lia.
  - intros [= -> ->]. rewrite !Z.sub_diag. reflexivity.
Qed.

(** One turn of the [while] loop. *)
Lemma shift_loop_unfold (combo goal : coord) (sequence : list coord) :
  shift_loop combo goal sequence =
  if coord_eqb combo goal then Ok sequence
  else
    c <- find_next (fst combo) (snd combo) (fst goal) (snd goal) ;;
    shift_loop c goal (sequence ++ [c]).
Proof.
  funelim (Shiftseq.shift_loop FRONT REAR combo goal sequence).
  - rewrite Heq. reflexivity.
  - rewrite Hne, Hstep. reflexivity.
  - rewrite Hne, Hraise. reflexivity.
Qed.

(** On the grid there is a walk to the goal. *)
Lemma walk_exists (g : coord) :
  in_grid g ->
  forall (n : nat) (a : coord),
    distance a g = n -> in_grid a -> exists l, walk g a l.
Proof.
  intros Hg. induction n as [|n IH]; intros a Hd Ha.
  - apply distance_zero in Hd as ->. exists []. constructor.
  - assert (Hne : coord_eqb a g = false).
    { apply coord_eqb_neq. intros ->.
      rewrite (proj2 (distance_zero g g) eq_refl) in Hd. discriminate. }
    destruct (find_next_total FRONT REAR a g Ha Hg) as (c & Hc).
    destruct (find_next_step FRONT REAR a g c Hne Hc) as (_ & Hdist & Hin).
    destruct (IH c) as (l & Hl); [lia | now apply Hin |].
    exists (c :: l). now apply Shiftseq.walk_step.
Qed.

(** The loop returns the sequence extended by the walk. *)
Lemma walk_shift_loop (g a : coord) (l : list coord) :
  walk g a l -> forall sequence, shift_loop a g sequence = Ok (sequence ++ l).
Proof.
  induction 1 as [|a c l Hne Hc Hw IH]; intros sequence;
    rewrite shift_loop_unfold.
  - rewrite coord_eqb_refl, app_nil_r. reflexivity.
  - rewrite Hne, Hc. cbn [bind]. rewrite IH, <- app_assoc. reflexivity.
Qed.

Lemma walk_length (g a : coord) (l : list coord) :
  walk g a l -> List.length l = distance a g.
Proof.
  induction 1 as [|a c l Hne Hc Hw IH].
  - symmetry. now apply distance_zero.
  - destruct (find_next_step FRONT REAR a g c Hne Hc) as (_ & Hdist & _).
    cbn [List.length]. lia.
Qed.

Lemma walk_single_steps (g a : coord) (l : list coord) :
  walk g a l -> single_steps (a :: l).
Proof.
  induction 1 as [|a c l Hne Hc Hw IH]; [exact I |].
  destruct (find_next_step FRONT REAR a g c Hne Hc) as (Hstep & _).
  split; assumption.
Qed.

(** A walk that is not empty ends with the goal. *)
Lemma walk_ends (g a : coord) (l : list coord) :
  walk g a l -> (a = g /\ l = []) \/ exists l', l = l' ++ [g].
Proof.
  induction 1 as [|a c l Hne Hc Hw IH]; [now left | right].
  destruct IH as [[-> ->] | (l' & ->)].
  - now exists [].
  - now exists (c :: l').
Qed.

(** The goal is reached by as many applications of the step rule as the
    walk has entries. *)
Lemma walk_iterate (g a : coord) (l : list coord) :
  walk g a l -> iterate_next (List.length l) a g = Ok g.
Proof.
  induction 1 as [|a c l Hne Hc Hw IH]; [reflexivity |].
  cbn [List.length Shiftseq.iterate_next]. rewrite Hc. exact IH.
Qed.

(** Every entry of a walk is closer to the goal than its start. *)
Lemma walk_closer (g a : coord) (l : list coord) :
  walk g a l -> Forall (fun c => (distance c g < distance a g)%nat) l.
Proof.
  induction 1 as [|a c l Hne Hc Hw IH]; [constructor |].
  destruct (find_next_step FRONT REAR a g c Hne Hc) as (_ & Hdist & _).
  constructor; [lia |].
  eapply Forall_impl; [| exact IH]. cbn. intros; lia.
Qed.

Lemma walk_NoDup (g a : coord) (l : list coord) :
  walk g a l -> NoDup (a :: l).
Proof.
  induction 1 as [|a c l Hne Hc Hw IH]; [repeat constructor; intros [] |].
  constructor; [| exact IH].
  pose proof (walk_closer g a (c :: l) (Shiftseq.walk_step _ _ _ _ _ _ Hne Hc Hw)) as Hcl.
  rewrite Forall_forall in Hcl. intros Hin. apply Hcl in Hin. lia.
Qed.

Lemma walk_in_grid (g a : coord) (l : list coord) :
  in_grid g -> walk g a l -> in_grid a -> Forall in_grid l.
Proof.
  intros Hg. induction 1 as [|a c l Hne Hc Hw IH]; intros Ha; [constructor |].
  destruct (find_next_step FRONT REAR a g c Hne Hc) as (_ & _ & Hin).
  constructor; auto.
Qed.
(** The distance between two grid coordinates is at most the diameter
    (F-1) + (R-1) of the grid. *)
Lemma distance_in_grid (a g : coord) :
  in_grid a -> in_grid g ->
  (distance a g <= (List.length FRONT - 1) + (List.length REAR - 1))%nat.
Proof.
  intros [Hay Hax] [Hgy Hgx]. unfold Shiftseq.distance. lia.
Qed.

End Walk.

(** ** The search for the origin and the goal *)

Section Search.
Context {F : Type} `{PyFloat F}.
Variables FRONT REAR : list Z.
Variables (ratio : F) (ifront irear : Z).

Local Abbreviation visit := (Shiftseq.visit ratio ifront irear).
Local Abbreviation search := (Shiftseq.search FRONT REAR ratio ifront irear).
Local Abbreviation cogs_of := (Shiftseq.cogs_of FRONT REAR).
Local Abbreviation in_grid := (Shiftseq.in_grid FRONT REAR).
Local Abbreviation accepts := (Shiftseq.accepts ratio).

Lemma visit_min_delta (fcell rcell : Z * Z) (st : Shiftseq.scan) :
  Shiftseq.min_delta (visit fcell st rcell) =
  if accepts (Shiftseq.min_delta st) (snd fcell) (snd rcell)
  then fsub ratio (fdiv (float_of_int (snd fcell)) (float_of_int (snd rcell)))
  else Shiftseq.min_delta st.
Proof.
  destruct fcell as [findex front], rcell as [rindex rear].
  unfold Shiftseq.visit, Shiftseq.accepts. cbn [fst snd].
  destruct ((front =? ifront) && (rear =? irear)); cbn [Shiftseq.min_delta];
    destruct (_ && _); reflexivity.
Qed.

Lemma visit_goal (fcell rcell : Z * Z) (st : Shiftseq.scan) :
  Shiftseq.goal (visit fcell st rcell) =
  if accepts (Shiftseq.min_delta st) (snd fcell) (snd rcell)
  then Some (fst fcell, fst rcell)
  else Shiftseq.goal st.
Proof.
  destruct fcell as [findex front], rcell as [rindex rear].
  unfold Shiftseq.visit, Shiftseq.accepts. cbn [fst snd].
  destruct ((front =? ifront) && (rear =? irear)); cbn [Shiftseq.min_delta];
    destruct (_ && _); reflexivity.
Qed.

Lemma visit_origin (fcell rcell : Z * Z) (st : Shiftseq.scan) :
  Shiftseq.origin (visit fcell st rcell) =
  if (snd fcell =? ifront) && (snd rcell =? irear)
  then Some (fst fcell, fst rcell)
  else Shiftseq.origin st.
Proof.
  destruct fcell as [findex front], rcell as [rindex rear].
  unfold Shiftseq.visit. cbn [fst snd].
  destruct ((front =? ifront) && (rear =? irear)); cbn [Shiftseq.min_delta];
    destruct (_ && _); reflexivity.
Qed.

(** A cell of the two enumerations is a grid coordinate with its cogs. *)
Lemma cell_in_grid (findex front rindex rear : Z) :
  In (findex, front) (enumerate FRONT) ->
  In (rindex, rear) (enumerate REAR) ->
  in_grid (findex, rindex) /\ cogs_of (findex, rindex) = Ok (front, rear).
Proof.
  intros Hf Hr.
  apply in_enumerate_getitem in Hf as (Hfi & Hfg).
  apply in_enumerate_getitem in Hr as (Hri & Hrg).
  split; [split; assumption |].
  unfold Shiftseq.cogs_of. cbn [fst snd]. now rewrite Hfg, Hrg.
Qed.

(** The search loops as a property of their state. *)
Lemma search_preserves (P : Shiftseq.scan -> Prop) :
  (forall fcell rcell st,
      In fcell (enumerate FRONT) -> In rcell (enumerate REAR) ->
      P st -> P (visit fcell st rcell)) ->
  P (Shiftseq.Scan (float_of_int 999999) None None) ->
  P search.
Proof.
  intros Hvisit Hinit. unfold Shiftseq.search.
  apply fold_left_preserves; [| exact Hinit].
  intros st fcell Hf Hst.
  apply fold_left_preserves; [| exact Hst].
  intros st' rcell Hr Hst'. now apply Hvisit.
Qed.

(** The goal, when the search finds one, is a grid coordinate. *)
Lemma search_goal_in_grid (g : coord) :
  Shiftseq.goal search = Some g -> in_grid g.
Proof.
  revert g.
  apply (search_preserves (fun st => forall g, Shiftseq.goal st = Some g -> in_grid g));
    [| discriminate].
  intros [findex front] [rindex rear] st Hf Hr Hst g.
  rewrite visit_goal. cbn [fst snd].
  destruct (accepts _ _ _); [| apply Hst].
  intros [= <-]. now apply (cell_in_grid findex front rindex rear).
Qed.

(** The origin, when the search finds one, is a grid coordinate that
    carries the initial cogs. *)
Lemma search_origin_sound (o : coord) :
  Shiftseq.origin search = Some o ->
  in_grid o /\ cogs_of o = Ok (ifront, irear).
Proof.
  revert o.
  apply (search_preserves
           (fun st => forall o, Shiftseq.origin st = Some o ->
                                in_grid o /\ cogs_of o = Ok (ifront, irear)));
    [| discriminate].
  intros [findex front] [rindex rear] st Hf Hr Hst o.
  rewrite visit_origin. cbn [fst snd].
  destruct ((front =? ifront) && (rear =? irear)) eqn:E; [| apply Hst].
  apply andb_true_iff in E as [->%Z.eqb_eq ->%Z.eqb_eq].
  intros [= <-]. now apply cell_in_grid.
Qed.

(** Initial cogs that pass the two membership checks are found. *)
Lemma search_origin_found :
  contains ifront FRONT = true -> contains irear REAR = true ->
  exists o, Shiftseq.origin search = Some o.
Proof.
  unfold contains. rewrite !existsb_exists.
  intros (front & Hf & <-%Z.eqb_eq) (rear & Hr & <-%Z.eqb_eq).
  apply In_nth_error in Hf as (nf & Hf), Hr as (nr & Hr).
  assert (Hfin : In (Z.of_nat nf, ifront) (enumerate FRONT)).
  { apply in_enumerate. rewrite Nat2Z.id. split; [| exact Hf].
    assert ((nf < List.length FRONT)%nat)
      by (apply nth_error_Some; rewrite Hf; discriminate). lia. }
  assert (Hrin : In (Z.of_nat nr, irear) (enumerate REAR)).
  { apply in_enumerate. rewrite Nat2Z.id. split; [| exact Hr].
    assert ((nr < List.length REAR)%nat)
      by (apply nth_error_Some; rewrite Hr; discriminate). lia. }
  unfold Shiftseq.search.
  apply (fold_left_establishes _ (fun _ => True)
           (fun st => exists o, Shiftseq.origin st = Some o)); [auto | | | exact I].
  - intros st fcell _ _ Hst. apply fold_left_preserves; [| exact Hst].
    intros st' rcell _ (o & Ho). rewrite visit_origin, Ho.
    destruct (_ && _); eauto.
  - exists (Z.of_nat nf, ifront). split; [exact Hfin |]. intros st _.
    apply (fold_left_establishes _ (fun _ => True)
             (fun st => exists o, Shiftseq.origin st = Some o)); [auto | | | exact I].
    + intros st' rcell _ _ (o & Ho). rewrite visit_origin, Ho.
      destruct (_ && _); eauto.
    + exists (Z.of_nat nr, irear). split; [exact Hrin |]. intros st' _.
      rewrite visit_origin. cbn [fst snd]. rewrite !Z.eqb_refl. cbn. eauto.
Qed.

(** Until a goal is taken, [min_delta] is still the initial 999999.0. *)
Lemma search_min_delta_initial (st : Shiftseq.scan) :
  st = search ->
  Shiftseq.goal st = None -> Shiftseq.min_delta st = float_of_int 999999.
Proof.
  intros ->.
  apply (search_preserves
           (fun st => Shiftseq.goal st = None ->
                      Shiftseq.min_delta st = float_of_int 999999));
    [| reflexivity].
  intros fcell rcell st _ _ Hst. rewrite visit_goal, visit_min_delta.
  destruct (accepts _ _ _); [discriminate | exact Hst].
Qed.

(** A combination that passes the test against the initial 999999.0
    makes the search end with a goal. *)
Lemma search_goal_found (front rear : Z) :
  In front FRONT -> In rear REAR ->
  accepts (float_of_int 999999) front rear = true ->
  exists g, Shiftseq.goal search = Some g.
Proof.
  intros Hf Hr Hacc.
  apply In_nth_error in Hf as (nf & Hf), Hr as (nr & Hr).
  assert (Hfin : In (Z.of_nat nf, front) (enumerate FRONT)).
  { apply in_enumerate. rewrite Nat2Z.id. split; [| exact Hf].
    assert ((nf < List.length FRONT)%nat)
      by (apply nth_error_Some; rewrite Hf; discriminate). lia. }
  assert (Hrin : In (Z.of_nat nr, rear) (enumerate REAR)).
  { apply in_enumerate. rewrite Nat2Z.id. split; [| exact Hr].
    assert ((nr < List.length REAR)%nat)
      by (apply nth_error_Some; rewrite Hr; discriminate). lia. }
  pose (J := fun st => Shiftseq.goal st = None ->
                       Shiftseq.min_delta st = float_of_int 999999).
  pose (P := fun st : @Shiftseq.scan F => exists g, Shiftseq.goal st = Some g).
  assert (HJ : forall fcell rcell st, J st -> J (visit fcell st rcell)).
  { intros fcell rcell st Hst. unfold J in *. cbv beta in *.
    rewrite visit_goal, visit_min_delta.
    destruct (accepts (Shiftseq.min_delta st) _ _); [discriminate | exact Hst]. }
  assert (HP : forall fcell rcell st, P st -> P (visit fcell st rcell)).
  { intros fcell rcell st (g & Hg). unfold P. cbv beta. rewrite visit_goal, Hg.
    destruct (accepts (Shiftseq.min_delta st) _ _); eauto. }
  unfold Shiftseq.search.
  apply (fold_left_establishes _ J P); [| | | intros _; reflexivity].
  - intros st fcell _ Hst. apply fold_left_preserves; [| exact Hst].
    intros st' rcell _. apply HJ.
  - intros st fcell _ _ Hst. apply fold_left_preserves; [| exact Hst].
    intros st' rcell _. apply HP.
  - exists (Z.of_nat nf, front). split; [exact Hfin |]. intros st Hst.
    apply (fold_left_establishes _ J P); [| | | exact Hst].
    + intros st' rcell _. apply HJ.
    + intros st' rcell _ _. apply HP.
    + exists (Z.of_nat nr, rear). split; [exact Hrin |]. intros st' Hst'.
      unfold P, J in *. cbv beta in *. rewrite visit_goal. cbn [fst snd].
      destruct (Shiftseq.goal st') as [g|] eqn:Eg.
      * destruct (accepts (Shiftseq.min_delta st') _ _); eauto.
      * rewrite (Hst' eq_refl), Hacc. eauto.
Qed.

(** A goal that the search takes has a ratio that is not above the
    target. *)
Lemma search_goal_below `{!PyFloatLaws F} (g : coord) :
  Shiftseq.goal search = Some g ->
  exists front rear,
    cogs_of g = Ok (front, rear) /\
    fleb (fdiv (float_of_int front) (float_of_int rear)) ratio = true.
Proof.
  revert g.
  apply (search_preserves
           (fun st => forall g, Shiftseq.goal st = Some g ->
              exists front rear,
                cogs_of g = Ok (front, rear) /\
                fleb (fdiv (float_of_int front) (float_of_int rear)) ratio = true));
    [| discriminate].
  intros [findex front] [rindex rear] st Hf Hr Hst g.
  rewrite visit_goal. cbn [fst snd].
  destruct (accepts (Shiftseq.min_delta st) front rear) eqn:E; [| apply Hst].
  intros [= <-]. exists front, rear.
  split; [now apply (cell_in_grid findex front rindex rear) |].
  unfold Shiftseq.accepts in E. apply andb_true_iff in E as [E _].
  now apply fsub_nonneg.
Qed.

(** Below every ratio of the table the search takes no goal. *)
Lemma search_no_goal_below `{!PyFloatLaws F} :
  (forall front rear, In front FRONT -> In rear REAR ->
     fltb ratio (fdiv (float_of_int front) (float_of_int rear)) = true) ->
  Shiftseq.goal search = None.
Proof.
  intros Hbelow.
  apply (search_preserves (fun st => Shiftseq.goal st = None)); [| reflexivity].
  intros [findex front] [rindex rear] st Hfin Hrin Hst.
  rewrite visit_goal. cbn [fst snd]. unfold Shiftseq.accepts.
  apply in_enumerate in Hfin as [_ Hfin], Hrin as [_ Hrin].
  apply nth_error_In in Hfin, Hrin.
  destruct (fleb (float_of_int 0) _) eqn:E; [| exact Hst].
  apply fsub_nonneg in E.
  rewrite (fltb_fleb _ _ (Hbelow front rear Hfin Hrin)) in E. discriminate.
Qed.
End Search.

(** ** The two searches agree *)

Section Agreement.
Context {F : Type} `{PyFloat F}.
Variables FRONT REAR : list Z.
Variables (ratio : F) (ifront irear : Z).

Local Abbreviation cogs_of := (Shiftseq.cogs_of FRONT REAR).

Lemma try_combo_visit (findex front rindex rear : Z)
      (b : Gearcombo.best) (s : Shiftseq.scan) :
  In (findex, front) (enumerate FRONT) ->
  In (rindex, rear) (enumerate REAR) ->
  same_choice FRONT REAR b s ->
  same_choice FRONT REAR (Gearcombo.try_combo ratio front b rear)
              (Shiftseq.visit ratio ifront irear (findex, front) s (rindex, rear)).
Proof.
  intros Hf Hr [Hmin Hgoal]. unfold same_choice.
  rewrite visit_min_delta, visit_goal. cbn [fst snd].
  unfold Gearcombo.try_combo. fold (Shiftseq.accepts ratio (Gearcombo.min_delta b) front rear).
  rewrite <- Hmin.
  destruct (Shiftseq.accepts ratio (Gearcombo.min_delta b) front rear).
  - cbn [Gearcombo.min_delta Gearcombo.min_combo]. split; [reflexivity |].
    now apply (cell_in_grid FRONT REAR).
  - split; [reflexivity | exact Hgoal].
Qed.

(** [compute_combo] returns the cogs of the goal of [generate_shifts], and
    its initial [( 0, 0 )] when the search ends without a goal. *)
Lemma compute_combo_search :
  fleb ratio (float_of_int 0) = false ->
  exists combo,
    Gearcombo.compute_combo FRONT REAR ratio = Ok combo /\
    match Shiftseq.goal (Shiftseq.search FRONT REAR ratio ifront irear) with
    | Some g => cogs_of g = Ok combo
    | None => combo = (0, 0)
    end.
Proof.
  intros Hpos. unfold Gearcombo.compute_combo. rewrite Hpos.
  eexists. split; [reflexivity |].
  unfold Shiftseq.search.
  apply (fold_left_enumerate_rel
           (fun st front => fold_left (Gearcombo.try_combo ratio front) REAR st)
           (fun st fcell =>
              fold_left (Shiftseq.visit ratio ifront irear fcell) (enumerate REAR) st)
           (same_choice FRONT REAR)).
  - intros b s findex front Hf Hbs.
    apply (fold_left_enumerate_rel
             (Gearcombo.try_combo ratio front)
             (Shiftseq.visit ratio ifront irear (findex, front))
             (same_choice FRONT REAR)); [| exact Hbs].
    intros b' s' rindex rear Hr Hbs'. now apply try_combo_visit.
  - split; reflexivity.
Qed.

(** When some combination passes the goal test against the initial
    999999.0, [compute_combo] returns a combination of the cog set whose
    ratio is not above the target. *)
Lemma compute_combo_below_target `{!PyFloatLaws F} (front rear : Z) :
  fleb ratio (float_of_int 0) = false ->
  In front FRONT -> In rear REAR ->
  Shiftseq.accepts ratio (float_of_int 999999) front rear = true ->
  exists front' rear',
    Gearcombo.compute_combo FRONT REAR ratio = Ok (front', rear') /\
    In front' FRONT /\ In rear' REAR /\
    fleb (fdiv (float_of_int front') (float_of_int rear')) ratio = true.
Proof.
  intros Hpos Hf Hr Hacc.
  destruct (search_goal_found FRONT REAR ratio ifront irear front rear Hf Hr Hacc)
    as (g & Hg).
  destruct (compute_combo_search Hpos) as (combo & Hc & Hcogs).
  rewrite Hg in Hcogs.
  destruct (search_goal_below FRONT REAR ratio ifront irear g Hg)
    as (front' & rear' & Hcogs' & Hle).
  rewrite Hcogs in Hcogs'. injection Hcogs' as ->.
  exists front', rear'. split; [exact Hc |].
  pose proof (search_goal_in_grid FRONT REAR ratio ifront irear g Hg) as [Hgy Hgx].
  unfold Shiftseq.cogs_of in Hcogs.
  destruct (getitem_in_range FRONT (fst g) Hgy) as (a & Ha & Han).
  destruct (getitem_in_range REAR (snd g) Hgx) as (b & Hb & Hbn).
  rewrite Ha, Hb in Hcogs. cbn [bind] in Hcogs. injection Hcogs as <- <-.
  split; [now apply nth_error_In in Han |].
  split; [now apply nth_error_In in Hbn | exact Hle].
Qed.
End Agreement.

(** ** The sequence that [generate_shifts] returns *)

Section Planner.
Context {F : Type} `{PyFloat F}.
Variables FRONT REAR : list Z.
Variables (ratio : F) (ifront irear : Z).

Local Abbreviation generate_shifts :=
  (Shiftseq.generate_shifts FRONT REAR ratio ifront irear).
Local Abbreviation search := (Shiftseq.search FRONT REAR ratio ifront irear).
Local Abbreviation walk := (Shiftseq.walk FRONT REAR).
Local Abbreviation in_grid := (Shiftseq.in_grid FRONT REAR).

Local Abbreviation valid_call := (Shiftseq.valid_call FRONT REAR ratio ifront irear).

Lemma generate_shifts_checked :
  valid_call ->
  generate_shifts =
  let st := search in
  if opt_coord_eqb (Shiftseq.origin st) (Shiftseq.goal st) then Ok []
  else
    match Shiftseq.origin st, Shiftseq.goal st with
    | Some o, Some g =>
        combo <- Shiftseq.find_next FRONT REAR (fst o) (snd o) (fst g) (snd g) ;;
        Shiftseq.shift_loop FRONT REAR combo g [o; combo]
    | _, _ => Raise TypeError
    end.
Proof.
  intros (Hr & Hf & Hb). unfold Shiftseq.generate_shifts.
  rewrite Hr, Hf, Hb. reflexivity.
Qed.

(** Only a valid call returns a sequence. *)
Lemma generate_shifts_ok_valid (sequence : list coord) :
  generate_shifts = Ok sequence -> valid_call.
Proof.
  unfold Shiftseq.generate_shifts, Shiftseq.valid_call.
  destruct (fleb ratio (float_of_int 0)); [discriminate |].
  destruct (contains ifront FRONT); [| discriminate].
  destruct (contains irear REAR); [| discriminate].
  auto.
Qed.

(** With a goal, the call returns nothing when the origin is the goal and
    otherwise the origin followed by the walk to the goal. *)
Lemma generate_shifts_goal (o g : coord) :
  valid_call ->
  Shiftseq.origin search = Some o ->
  Shiftseq.goal search = Some g ->
  (o = g /\ generate_shifts = Ok []) \/
  (o <> g /\ exists c l, walk g o (c :: l) /\ generate_shifts = Ok (o :: c :: l)).
Proof.
  intros Hv Ho Hg. rewrite (generate_shifts_checked Hv). cbv zeta.
  rewrite Ho, Hg. cbn [opt_coord_eqb].
  destruct (coord_eqb o g) eqn:E.
  - left. apply coord_eqb_eq in E. now split.
  - right. split; [now apply coord_eqb_neq |].
    pose proof (search_origin_sound FRONT REAR ratio ifront irear o Ho) as [Hin _].
    pose proof (search_goal_in_grid FRONT REAR ratio ifront irear g Hg) as Hgin.
    destruct (walk_exists FRONT REAR g Hgin _ o eq_refl Hin) as (l & Hl).
    destruct Hl as [| a c l Hne Hc Hw]; [now rewrite coord_eqb_refl in E |].
    exists c, l. split; [now constructor |].
    rewrite Hc. cbn [bind].
    now rewrite (walk_shift_loop FRONT REAR g c l Hw).
Qed.

(** Without a goal, [origin + goal] fails. *)
Lemma generate_shifts_no_goal :
  valid_call ->
  Shiftseq.goal search = None ->
  generate_shifts = Raise TypeError.
Proof.
  intros Hv Hg. rewrite (generate_shifts_checked Hv). cbv zeta.
  destruct Hv as (_ & Hf & Hr).
  destruct (search_origin_found FRONT REAR ratio ifront irear Hf Hr) as (o & Ho).
  rewrite Ho, Hg. reflexivity.
Qed.

(** Every returned sequence arises in one of the two ways. *)
Lemma generate_shifts_ok (sequence : list coord) :
  generate_shifts = Ok sequence ->
  exists o g,
    Shiftseq.origin search = Some o /\ Shiftseq.goal search = Some g /\
    in_grid o /\ in_grid g /\
    ((o = g /\ sequence = []) \/
     (o <> g /\ exists c l, walk g o (c :: l) /\ sequence = o :: c :: l)).
Proof.
  intros Hseq. pose proof (generate_shifts_ok_valid sequence Hseq) as Hv.
  destruct (search_origin_found FRONT REAR ratio ifront irear
              (proj1 (proj2 Hv)) (proj2 (proj2 Hv))) as (o & Ho).
  destruct (Shiftseq.goal search) as [g|] eqn:Hg.
  - exists o, g.
    pose proof (search_origin_sound FRONT REAR ratio ifront irear o Ho) as [Hin _].
    pose proof (search_goal_in_grid FRONT REAR ratio ifront irear g Hg) as Hgin.
    split; [exact Ho |]. split; [reflexivity |].
    split; [exact Hin |]. split; [exact Hgin |].
    destruct (generate_shifts_goal o g Hv Ho Hg) as [[-> Hs] | (Hne & c & l & Hw & Hs)];
      rewrite Hs in Hseq; injection Hseq as <-.
    + now left.
    + right. split; [exact Hne |]. now exists c, l.
  - rewrite (generate_shifts_no_goal Hv Hg) in Hseq. discriminate.
Qed.
End Planner.

(** ** Exact rationals obey the float laws *)

#[export] Instance exact_Q_laws : PyFloatLaws Q.
Proof.
  split; cbn [fltb fleb fsub float_of_int exact_Q].
  - intros a b Hlt. now apply negb_true_iff in Hlt.
  - intros a b c Hlt Hle.
    apply negb_true_iff in Hlt. apply negb_true_iff.
    apply Qle_bool_iff in Hle.
    destruct (Qle_bool c a) eqn:E; [| reflexivity].
    apply Qle_bool_iff in E.
    assert (Hba : (b <= a)%Q) by (eapply Qle_trans; eassumption).
    apply Qle_bool_iff in Hba. congruence.
  - intros a b Hle. apply Qle_bool_iff in Hle. apply Qle_bool_iff.
    apply Qle_minus_iff. exact Hle.
Qed.

(** ** IEEE binary64 obeys the float laws

    From the specification of the primitive floats by [SpecFloat]: the
    comparison is antisymmetric, and the subtraction of two finite numbers
    rounds the exact difference of the aligned mantissas, which keeps its
    sign and never rounds to zero. *)

Module Binary64.

(** Comparing the other way round gives the opposite answer. *)
Lemma SFcompare_antisym (x y : spec_float) :
  SFcompare y x = option_map CompOpp (SFcompare x y).
Proof.
  destruct x as [[]|[]| |[] mx ex], y as [[]|[]| |[] my ey]; cbn; try reflexivity;
    rewrite (Z.compare_antisym ex ey);
    destruct (ex ?= ey); cbn; try reflexivity;
    change (Pos.compare_cont Eq my mx) with (Pos.compare_cont (CompOpp Eq) my mx);
    rewrite <- (Pos.compare_cont_antisym mx my Eq);
    destruct (Pos.compare_cont Eq mx my); reflexivity.
Qed.

(** [a < b] excludes [b <= a]. *)
Lemma ltb_leb_false (a b : float) :
  PrimFloat.ltb a b = true -> PrimFloat.leb b a = false.
Proof.
  rewrite ltb_spec, leb_spec. unfold SFltb, SFleb.
  rewrite (SFcompare_antisym (Prim2SF a) (Prim2SF b)).
  destruct (SFcompare (Prim2SF a) (Prim2SF b)) as [[]|]; cbn; congruence.
Qed.

(** Strictly below a number that is not above a third one. *)
Lemma SFcompare_lt_le_trans (x y z : spec_float) :
  SFltb x y = true -> SFleb y z = true -> SFltb x z = true.
Proof.
  unfold SFltb, SFleb.
  destruct x as [[]|[]| |[] mx ex], y as [[]|[]| |[] my ey], z as [[]|[]| |[] mz ez];
    cbn; try congruence;
    destruct (Z.compare_spec ex ey); try congruence;
    destruct (Z.compare_spec ey ez); try congruence;
    destruct (Z.compare_spec ex ez); try congruence; try lia;
    change (Pos.compare_cont Eq) with Pos.compare;
    repeat match goal with
      | |- context [Pos.compare ?a ?b] => destruct (Pos.compare_spec a b)
      end; cbn; try congruence; try lia.
Qed.

Lemma ltb_leb_trans (a b c : float) :
  PrimFloat.ltb a b = true -> PrimFloat.leb b c = true -> PrimFloat.ltb a c = true.
Proof. rewrite !ltb_spec, leb_spec. apply SFcompare_lt_le_trans. Qed.

(** A mantissa of [d] binary digits lies between 2^(d-1) and 2^d. *)
Lemma digits2_pos_bounds (m : positive) :
  2 ^ (Zpos (digits2_pos m) - 1) <= Zpos m < 2 ^ Zpos (digits2_pos m).
Proof.
  induction m as [m IH|m IH|]; cbn [digits2_pos].
  - rewrite Pos2Z.inj_succ.
    replace (Z.succ (Zpos (digits2_pos m)) - 1) with (Z.succ (Zpos (digits2_pos m) - 1)) by lia.
    rewrite !Z.pow_succ_r by lia. lia.
  - rewrite Pos2Z.inj_succ.
    replace (Z.succ (Zpos (digits2_pos m)) - 1) with (Z.succ (Zpos (digits2_pos m) - 1)) by lia.
    rewrite !Z.pow_succ_r by lia. lia.
  - cbn. lia.
Qed.

(** Left shifts of a mantissa. *)
Lemma iter_xO_value (m d : positive) :
  Zpos (Pos.iter xO m d) = Zpos m * 2 ^ Zpos d.
Proof.
  induction d as [|d IH] using Pos.peano_ind.
  - cbn. lia.
  - rewrite Pos.iter_succ, Pos2Z.inj_succ, Z.pow_succ_r by lia.
    rewrite Pos2Z.inj_xO, IH. lia.
Qed.

Lemma shl_align_value (m : positive) (e e' : Z) :
  e' <= e -> Zpos (fst (shl_align m e e')) = Zpos m * 2 ^ (e - e').
Proof.
  intros Hle. unfold shl_align.
  destruct (e' - e) as [|p|p] eqn:E.
  - replace (e - e') with 0 by lia. cbn [fst]. lia.
  - lia.
  - cbn [fst]. rewrite iter_xO_value. f_equal. f_equal. lia.
Qed.

(** A canonical binary64 mantissa has at most 53 digits, and exactly 53
    above the least exponent. *)
Lemma bounded_digits (m : positive) (e : Z) :
  bounded prec emax m e = true ->
  Zpos (digits2_pos m) <= 53 /\ -1074 <= e /\
  (-1074 < e -> Zpos (digits2_pos m) = 53).
Proof.
  unfold bounded, canonical_mantissa, fexp, SpecFloat.emin, prec, emax.
  intros Hb. apply andb_true_iff in Hb as [Hc _]. apply Z.eqb_eq in Hc.
  lia.
Qed.

(** A canonical number with the lower exponent is the smaller one. *)
Lemma lower_exponent_smaller (m m' : positive) (e e' : Z) :
  bounded prec emax m e = true -> bounded prec emax m' e' = true ->
  e < e' -> Zpos m < Zpos m' * 2 ^ (e' - e).
Proof.
  intros Hm Hm' Hlt.
  apply bounded_digits in Hm as (Hd & He & _), Hm' as (_ & _ & Hn').
  pose proof (digits2_pos_bounds m) as [_ Bm].
  pose proof (digits2_pos_bounds m') as [Bm' _].
  rewrite Hn' in Bm' by lia.
  assert (Hup : 2 ^ Zpos (digits2_pos m) <= 2 ^ 53)
    by (apply Z.pow_le_mono_r; lia).
  assert (Hpow : 2 ^ 1 <= 2 ^ (e' - e)) by (apply Z.pow_le_mono_r; lia).
  change (2 ^ 1) with 2 in Hpow.
  change (2 ^ (53 - 1)) with 4503599627370496 in Bm'.
  change (2 ^ 53) with 9007199254740992 in Hup.
  nia.
Qed.

(** The sign of the aligned difference. *)
Lemma compare_Gt_difference (sx sy : bool) (mx my : positive) (ex ey : Z) :
  bounded prec emax mx ex = true -> bounded prec emax my ey = true ->
  SFcompare (S754_finite sy my ey) (S754_finite sx mx ex) = Some Gt ->
  cond_Zopp sx (Zpos (fst (shl_align mx ex (Z.min ex ey)))) -
  cond_Zopp sy (Zpos (fst (shl_align my ey (Z.min ex ey)))) < 0.
Proof.
  intros Hx Hy Hcmp.
  rewrite (shl_align_value mx ex (Z.min ex ey)) by lia.
  rewrite (shl_align_value my ey (Z.min ex ey)) by lia.
  assert (Hpx : 0 < 2 ^ (ex - Z.min ex ey)) by (apply Z.pow_pos_nonneg; lia).
  assert (Hpy : 0 < 2 ^ (ey - Z.min ex ey)) by (apply Z.pow_pos_nonneg; lia).
  destruct sx, sy; cbn [SFcompare cond_Zopp] in *;
    try discriminate; try nia;
    destruct (Z.compare_spec ey ex) as [E|E|E]; try discriminate.
  - subst ey. rewrite Z.min_id, Z.sub_diag, Z.pow_0_r, !Z.mul_1_r.
    injection Hcmp as Hcmp. apply (f_equal CompOpp) in Hcmp.
    rewrite CompOpp_involutive in Hcmp. cbn [CompOpp] in Hcmp.
    change (Pos.compare_cont Eq my mx) with (Pos.compare my mx) in Hcmp.
    apply -> Pos.compare_lt_iff in Hcmp. lia.
  - pose proof (lower_exponent_smaller my mx ey ex Hy Hx E) as Hlt.
    rewrite Z.min_r, Z.sub_diag, Z.pow_0_r, Z.mul_1_r by lia. lia.
  - subst ey. rewrite Z.min_id, Z.sub_diag, Z.pow_0_r, !Z.mul_1_r.
    injection Hcmp as Hcmp.
    change (Pos.compare_cont Eq my mx) with (Pos.compare my mx) in Hcmp.
    apply -> Pos.compare_gt_iff in Hcmp. lia.
  - pose proof (lower_exponent_smaller mx my ex ey Hx Hy E) as Hlt.
    rewrite Z.min_l, Z.sub_diag, Z.pow_0_r, Z.mul_1_r by lia. lia.
Qed.

(** Right shifts of a non-negative mantissa. *)
Lemma shr_1_m (mrs : shr_record) :
  0 <= shr_m mrs -> shr_m (shr_1 mrs) = shr_m mrs / 2.
Proof.
  destruct mrs as [m r s]. cbn [shr_m]. intros Hm.
  rewrite <- Z.div2_div.
  destruct m as [|[p|p|]|p]; try reflexivity. lia.
Qed.

Lemma shr_m_iter (p : positive) :
  forall mrs, 0 <= shr_m mrs ->
              shr_m (iter_pos shr_1 p mrs) = shr_m mrs / 2 ^ Zpos p.
Proof.
  induction p as [p IH|p IH|]; intros mrs Hm; cbn [iter_pos].
  - assert (H1 : 0 <= shr_m (shr_1 mrs))
      by (rewrite shr_1_m by exact Hm; apply Z.div_pos; lia).
    assert (Hp : 0 < 2 ^ Zpos p) by (apply Z.pow_pos_nonneg; lia).
    assert (H2 : 0 <= shr_m (iter_pos shr_1 p (shr_1 mrs)))
      by (rewrite IH by exact H1; apply Z.div_pos; lia).
    rewrite IH, IH, shr_1_m by assumption.
    rewrite !Z.div_div by lia. f_equal.
    replace (Zpos p~1) with (1 + Zpos p + Zpos p) by lia.
    rewrite !Z.pow_add_r by lia. change (2 ^ 1) with 2. lia.
  - assert (Hp : 0 < 2 ^ Zpos p) by (apply Z.pow_pos_nonneg; lia).
    assert (H2 : 0 <= shr_m (iter_pos shr_1 p mrs))
      by (rewrite IH by exact Hm; apply Z.div_pos; lia).
    rewrite IH, IH by assumption.
    rewrite !Z.div_div by lia. f_equal.
    replace (Zpos p~0) with (Zpos p + Zpos p) by lia.
    rewrite !Z.pow_add_r by lia. lia.
  - rewrite shr_1_m by exact Hm. reflexivity.
Qed.

(** Rounding adds at most one unit to the mantissa. *)
Lemma round_nearest_even_bounds (m : Z) (l : location) :
  m <= round_nearest_even m l <= m + 1.
Proof.
  destruct l as [|[]]; cbn [round_nearest_even]; try lia.
  destruct (Z.even m); lia.
Qed.

(** Rounding a mantissa that is not zero, at a representable exponent,
    does not give zero. *)
Lemma binary_round_aux_nonzero (sx : bool) (m : positive) (e : Z) :
  -1074 <= e ->
  signed_nonzero sx (binary_round_aux prec emax sx (Zpos m) e loc_Exact).
Proof.
  intros He. unfold binary_round_aux, shr_fexp, shr.
  cbn [shr_record_of_loc Zdigits2].
  pose proof (digits2_pos_bounds m) as Bm.
  destruct (fexp prec emax (Zpos (digits2_pos m) + e) - e) as [|p|p] eqn:En.
  - cbn [shr_m loc_of_shr_record round_nearest_even Zdigits2]. rewrite En.
    cbn [shr_m]. destruct (_ <=? _); [right; eauto | now left].
  - assert (Hp : Zpos (digits2_pos m) - 53 = Zpos p)
      by (unfold fexp, SpecFloat.emin, prec, emax in En; lia).
    remember (iter_pos shr_1 p {| shr_m := Zpos m; shr_r := false; shr_s := false |})
      as mrs' eqn:Emrs.
    assert (Hm' : shr_m mrs' = Zpos m / 2 ^ Zpos p)
      by (subst mrs'; rewrite shr_m_iter by (cbn; lia); reflexivity).
    assert (Hpow : 0 < 2 ^ Zpos p) by (apply Z.pow_pos_nonneg; lia).
    assert (Hlo : 2 ^ 52 <= shr_m mrs').
    { rewrite Hm'. apply Z.div_le_lower_bound; [exact Hpow |].
      rewrite <- Z.pow_add_r by lia.
      replace (Zpos p + 52) with (Zpos (digits2_pos m) - 1) by lia. apply Bm. }
    assert (Hhi : shr_m mrs' < 2 ^ 53).
    { rewrite Hm'. apply Z.div_lt_upper_bound; [exact Hpow |].
      rewrite <- Z.pow_add_r by lia.
      replace (Zpos p + 53) with (Zpos (digits2_pos m)) by lia. apply Bm. }
    pose proof (round_nearest_even_bounds (shr_m mrs') (loc_of_shr_record mrs')) as Hq.
    remember (round_nearest_even (shr_m mrs') (loc_of_shr_record mrs')) as q eqn:Eq.
    change (2 ^ 52) with 4503599627370496 in Hlo.
    change (2 ^ 53) with 9007199254740992 in Hhi.
    destruct q as [|q|q]; try lia.
    cbn [Zdigits2].
    pose proof (digits2_pos_bounds q) as Bq.
    assert (Hdq : Zpos (digits2_pos q) = 53 \/ Zpos (digits2_pos q) = 54).
    { destruct (Z_le_gt_dec (Zpos (digits2_pos q)) 52) as [Hs|Hs].
      - assert (2 ^ Zpos (digits2_pos q) <= 2 ^ 52) by (apply Z.pow_le_mono_r; lia).
        change (2 ^ 52) with 4503599627370496 in *. lia.
      - destruct (Z_le_gt_dec 55 (Zpos (digits2_pos q))) as [Hb|Hb]; [| lia].
        assert (2 ^ 54 <= 2 ^ (Zpos (digits2_pos q) - 1)) by (apply Z.pow_le_mono_r; lia).
        change (2 ^ 54) with 18014398509481984 in *. lia. }
    destruct (fexp prec emax (Zpos (digits2_pos q) + (e + Zpos p)) - (e + Zpos p))
      as [|p2|p2] eqn:En2;
      try (cbn [shr_m]; destruct (_ <=? _); [right; eauto | now left]).
    assert (p2 = 1%positive)
      by (unfold fexp, SpecFloat.emin, prec, emax in En2; lia).
    subst p2. cbn [iter_pos].
    pose proof (shr_1_m {| shr_m := Zpos q; shr_r := false; shr_s := false |}) as H1.
    cbn [shr_m] in H1. specialize (H1 ltac:(lia)).
    assert (Hq2 : 0 < Zpos q / 2)
      by (apply Z.div_str_pos; lia).
    destruct (shr_m (shr_1 _)) as [|q2|q2]; try lia.
    destruct (_ <=? _); [right; eauto | now left].
  - cbn [shr_m loc_of_shr_record round_nearest_even Zdigits2]. rewrite En.
    cbn [shr_m]. destruct (_ <=? _); [right; eauto | now left].
Qed.

Lemma binary_round_nonzero (sx : bool) (m : positive) (e : Z) :
  -1074 <= e -> signed_nonzero sx (binary_round prec emax sx m e).
Proof.
  intros He. unfold binary_round.
  destruct (shl_align m e (fexp prec emax (Zpos (digits2_pos m) + e)))
    as [mz ez] eqn:Es.
  apply binary_round_aux_nonzero.
  unfold shl_align in Es.
  destruct (fexp prec emax (Zpos (digits2_pos m) + e) - e) eqn:En;
    injection Es as _ <-; try exact He.
  unfold fexp, SpecFloat.emin, prec, emax. lia.
Qed.

Lemma signed_nonzero_negative (r : spec_float) :
  signed_nonzero true r -> SFleb (S754_zero false) r = false.
Proof. intros [-> | (m & e & ->)]; reflexivity. Qed.

(** A difference that is not negative has the larger operand first. *)
Lemma SFsub_nonneg (x y : spec_float) :
  valid_binary x = true -> valid_binary y = true ->
  SFleb (S754_zero false) (SF64sub x y) = true -> SFleb y x = true.
Proof.
  intros Vx Vy.
  destruct x as [sx|sx| |sx mx ex], y as [sy|sy| |sy my ey];
    try (destruct sx; try destruct sy; cbn; congruence);
    try (destruct sy; cbn; congruence);
    try (cbn; congruence).
  cbn [valid_binary] in Vx, Vy. intros Hsub.
  destruct (SFleb (S754_finite sy my ey) (S754_finite sx mx ex)) eqn:Hle;
    [reflexivity | exfalso].
  assert (Hc : exists c, SFcompare (S754_finite sy my ey) (S754_finite sx mx ex) = Some c)
    by (cbn; eauto).
  destruct Hc as (c & Hc). unfold SFleb in Hle. rewrite Hc in Hle.
  destruct c; try discriminate.
  pose proof (compare_Gt_difference sx sy mx my ex ey Vx Vy Hc) as Hd.
  unfold SF64sub, SFsub in Hsub. cbv zeta in Hsub.
  destruct (_ - _) as [|d|d] in Hd, Hsub; try lia.
  cbn [binary_normalize] in Hsub.
  rewrite signed_nonzero_negative in Hsub; [discriminate |].
  apply binary_round_nonzero.
  apply bounded_digits in Vx as (_ & Hex & _), Vy as (_ & Hey & _). lia.
Qed.

Lemma leb_sub_nonneg (a b : float) :
  PrimFloat.leb PrimFloat.zero (PrimFloat.sub a b) = true -> PrimFloat.leb b a = true.
Proof.
  rewrite !leb_spec, sub_spec.
  change (Prim2SF PrimFloat.zero) with (S754_zero false).
  apply SFsub_nonneg; apply Prim2SF_valid.
Qed.
End Binary64.

#[export] Instance binary64_laws : PyFloatLaws float.
Proof.
  split; cbn [fltb fleb fsub float_of_int binary64 float_of_Z].
  - exact Binary64.ltb_leb_false.
  - exact Binary64.ltb_leb_trans.
  - exact Binary64.leb_sub_nonneg.
Qed.

(** ** The specified properties of the planner *)

Section Properties.
Context {F : Type} `{PyFloat F}.
Variables FRONT REAR : list Z.

Local Abbreviation find_next := (Shiftseq.find_next FRONT REAR).
Local Abbreviation ratio_at := (Shiftseq.ratio_at FRONT REAR).
Local Abbreviation cogs_of := (Shiftseq.cogs_of FRONT REAR).
Local Abbreviation in_grid := (Shiftseq.in_grid FRONT REAR).
Local Abbreviation generate_shifts := (Shiftseq.generate_shifts FRONT REAR).
Local Abbreviation search := (Shiftseq.search FRONT REAR).
Local Abbreviation valid_call := (Shiftseq.valid_call FRONT REAR).
Local Abbreviation iterate_next := (Shiftseq.iterate_next FRONT REAR).
Local Abbreviation toward := Shiftseq.toward.
Local Abbreviation distance := Shiftseq.distance.

(** C1, as the code has it: when both axes have to move, [find_next]
    reads the ratio of the rear-axis move, [_combos[curr_y][next_x]], and
    the ratio of the front-axis move, [_combos[next_y][curr_x]]; it takes
    the rear-axis move when the rear ratio is strictly the smaller one and
    the front-axis move in every other case, so on a tie (neither ratio
    strictly smaller) the front-axis move is taken. *)
Theorem find_next_both_axes_choice
        (curr_y curr_x final_y final_x : Z) (delta_x delta_y : F) :
  curr_y <> final_y -> curr_x <> final_x ->
  ratio_at (curr_y, toward curr_x final_x) = Ok delta_x ->
  ratio_at (toward curr_y final_y, curr_x) = Ok delta_y ->
  (fltb delta_x delta_y = true ->
   find_next curr_y curr_x final_y final_x = Ok (curr_y, toward curr_x final_x)) /\
  (fltb delta_x delta_y = false ->
   find_next curr_y curr_x final_y final_x = Ok (toward curr_y final_y, curr_x)) /\
  (fltb delta_x delta_y = false -> fltb delta_y delta_x = false ->
   find_next curr_y curr_x final_y final_x = Ok (toward curr_y final_y, curr_x)).
Proof.
  intros Hy Hx Hdx Hdy.
  rewrite (find_next_both_axes FRONT REAR _ _ _ _ _ _ Hy Hx Hdx Hdy).
  repeat split; intros ->; reflexivity.
Qed.

(** C9: from a grid coordinate toward a grid coordinate that differs on
    both axes, [find_next] reads the table at the cell of the rear-axis
    move and at the cell of the front-axis move only; both cells are on the
    grid, both reads succeed, and the coordinate returned is on the grid. *)
Theorem find_next_in_range (curr_y curr_x final_y final_x : Z) :
  in_grid (curr_y, curr_x) -> in_grid (final_y, final_x) ->
  curr_y <> final_y -> curr_x <> final_x ->
  find_next curr_y curr_x final_y final_x =
  (delta_x <- ratio_at (curr_y, toward curr_x final_x) ;;
   delta_y <- ratio_at (toward curr_y final_y, curr_x) ;;
   Ok (if fltb delta_x delta_y
       then (curr_y, toward curr_x final_x)
       else (toward curr_y final_y, curr_x))) /\
  in_grid (curr_y, toward curr_x final_x) /\
  in_grid (toward curr_y final_y, curr_x) /\
  (exists delta_x delta_y,
      ratio_at (curr_y, toward curr_x final_x) = Ok delta_x /\
      ratio_at (toward curr_y final_y, curr_x) = Ok delta_y) /\
  (exists c, find_next curr_y curr_x final_y final_x = Ok c /\ in_grid c).
Proof.
  intros Hc Hg Hy Hx.
  assert (Hrear : in_grid (curr_y, toward curr_x final_x)).
  { destruct Hc as [Hcy Hcx], Hg as [Hgy Hgx]. cbn [fst snd] in *.
    split; cbn [fst snd]; [exact Hcy |].
    destruct (toward_cases curr_x final_x) as [[? E]|[[? E]|[? E]]]; lia. }
  assert (Hfront : in_grid (toward curr_y final_y, curr_x)).
  { destruct Hc as [Hcy Hcx], Hg as [Hgy Hgx]. cbn [fst snd] in *.
    split; cbn [fst snd]; [| exact Hcx].
    destruct (toward_cases curr_y final_y) as [[? E]|[[? E]|[? E]]]; lia. }
  destruct (ratio_at_in_grid FRONT REAR _ Hrear) as (? & ? & _ & Hdx).
  destruct (ratio_at_in_grid FRONT REAR _ Hfront) as (? & ? & _ & Hdy).
  split; [exact (find_next_reads FRONT REAR _ _ _ _ Hy Hx) |].
  split; [exact Hrear |]. split; [exact Hfront |]. split; [eauto |].
  rewrite (find_next_both_axes FRONT REAR _ _ _ _ _ _ Hy Hx Hdx Hdy).
  eexists. split; [reflexivity |]. now destruct (fltb _ _).
Qed.

(** C5: a valid call whose origin coordinate is the goal coordinate of
    the search returns the empty sequence. *)
Theorem origin_is_goal_no_shift (ratio : F) (ifront irear : Z) (c : coord) :
  valid_call ratio ifront irear ->
  Shiftseq.origin (search ratio ifront irear) = Some c ->
  Shiftseq.goal (search ratio ifront irear) = Some c ->
  generate_shifts ratio ifront irear = Ok [].
Proof.
  intros Hv Ho Hg.
  destruct (generate_shifts_goal FRONT REAR ratio ifront irear c c Hv Ho Hg)
    as [[_ Hs] | [Hne _]]; [exact Hs | now elim Hne].
Qed.

(** C6: in every sequence that [generate_shifts] returns, consecutive
    coordinates differ by one unit on exactly one axis. *)
Theorem sequence_single_axis_steps
        (ratio : F) (ifront irear : Z) (sequence : list coord) :
  generate_shifts ratio ifront irear = Ok sequence ->
  Shiftseq.single_steps sequence.
Proof.
  intros Hs.
  destruct (generate_shifts_ok FRONT REAR ratio ifront irear sequence Hs)
    as (o & g & _ & _ & _ & _ & [[_ ->] | (_ & c & l & Hw & ->)]); [exact I |].
  exact (walk_single_steps FRONT REAR g o (c :: l) Hw).
Qed.

(** C3, as the code has it: a valid call for which some combination
    passes the goal test against the initial 999999.0 returns a sequence
    of at most (F-1) + (R-1) + 1 coordinates, the origin and at most
    (F-1) + (R-1) shifts. *)
Theorem sequence_length_bound (ratio : F) (ifront irear front rear : Z) :
  valid_call ratio ifront irear ->
  In front FRONT -> In rear REAR ->
  Shiftseq.accepts ratio (float_of_int 999999) front rear = true ->
  exists sequence,
    generate_shifts ratio ifront irear = Ok sequence /\
    (List.length sequence <=
     (List.length FRONT - 1) + (List.length REAR - 1) + 1)%nat.
Proof.
  intros Hv Hf Hr Hacc.
  destruct (search_goal_found FRONT REAR ratio ifront irear front rear Hf Hr Hacc)
    as (g & Hg).
  destruct (search_origin_found FRONT REAR ratio ifront irear
              (proj1 (proj2 Hv)) (proj2 (proj2 Hv))) as (o & Ho).
  pose proof (search_origin_sound FRONT REAR ratio ifront irear o Ho) as [Hin _].
  pose proof (search_goal_in_grid FRONT REAR ratio ifront irear g Hg) as Hgin.
  destruct (generate_shifts_goal FRONT REAR ratio ifront irear o g Hv Ho Hg)
    as [[_ Hs] | (_ & c & l & Hw & Hs)]; rewrite Hs; eexists; (split; [reflexivity |]).
  - cbn [List.length]. lia.
  - pose proof (walk_length FRONT REAR g o (c :: l) Hw) as Hlen.
    pose proof (distance_in_grid FRONT REAR o g Hin Hgin) as Hd.
    cbn [List.length] in *. lia.
Qed.

(** C4: a valid call for which the search finds a goal returns a sequence
    whose final element [sequence[-1]] is the goal coordinate, and the cogs
    of that coordinate are the pair that [compute_combo] returns for the
    same ratio; when the sequence is empty the origin is that goal, and
    the initial cogs are that pair. *)
Theorem sequence_ends_at_compute_combo
        (ratio : F) (ifront irear : Z) (g : coord) :
  valid_call ratio ifront irear ->
  Shiftseq.goal (search ratio ifront irear) = Some g ->
  exists sequence combo,
    generate_shifts ratio ifront irear = Ok sequence /\
    Gearcombo.compute_combo FRONT REAR ratio = Ok combo /\
    cogs_of g = Ok combo /\
    ((sequence = [] /\ combo = (ifront, irear)) \/
     getitem sequence (-1) = Ok g).
Proof.
  intros Hv Hg.
  destruct (compute_combo_search FRONT REAR ratio ifront irear (proj1 Hv))
    as (combo & Hcombo & Hcogs).
  rewrite Hg in Hcogs.
  destruct (search_origin_found FRONT REAR ratio ifront irear
              (proj1 (proj2 Hv)) (proj2 (proj2 Hv))) as (o & Ho).
  pose proof (search_origin_sound FRONT REAR ratio ifront irear o Ho) as [_ Hoc].
  destruct (generate_shifts_goal FRONT REAR ratio ifront irear o g Hv Ho Hg)
    as [[-> Hs] | (Hne & c & l & Hw & Hs)]; rewrite Hs;
    eexists; exists combo; (split; [reflexivity |]);
    (split; [exact Hcombo |]); (split; [exact Hcogs |]).
  - left. split; [reflexivity | congruence].
  - right. destruct (walk_ends FRONT REAR g o (c :: l) Hw) as [[_ [=]] | (l' & ->)].
    exact (getitem_last (o :: l') g).
Qed.

(** C7: for a valid call with origin [o] and goal [g], the call returns;
    the step rule applied [distance o g] times from the origin yields the
    goal, which is where the loop stops; the sequence has one entry for
    the origin and one for each application, so at most [distance o g]
    applications were made; each of them moves one unit on one axis; and
    no coordinate occurs twice in the sequence. *)
Theorem loop_terminates_within_distance
        (ratio : F) (ifront irear : Z) (o g : coord) :
  valid_call ratio ifront irear ->
  Shiftseq.origin (search ratio ifront irear) = Some o ->
  Shiftseq.goal (search ratio ifront irear) = Some g ->
  exists sequence,
    generate_shifts ratio ifront irear = Ok sequence /\
    (Nat.pred (List.length sequence) <= distance o g)%nat /\
    iterate_next (distance o g) o g = Ok g /\
    Shiftseq.single_steps sequence /\
    NoDup sequence.
Proof.
  intros Hv Ho Hg.
  destruct (generate_shifts_goal FRONT REAR ratio ifront irear o g Hv Ho Hg)
    as [[-> Hs] | (Hne & c & l & Hw & Hs)]; rewrite Hs;
    eexists; (split; [reflexivity |]).
  - cbn [List.length Nat.pred]. split; [lia |].
    rewrite (proj2 (distance_zero g g) eq_refl).
    split; [reflexivity |]. split; [exact I | constructor].
  - pose proof (walk_length FRONT REAR g o (c :: l) Hw) as Hlen.
    split; [cbn [List.length Nat.pred] in *; lia |].
    split; [rewrite <- Hlen; exact (walk_iterate FRONT REAR g o (c :: l) Hw) |].
    split; [exact (walk_single_steps FRONT REAR g o (c :: l) Hw) |].
    exact (walk_NoDup FRONT REAR g o (c :: l) Hw).
Qed.

(** C10: let [smallest] be a ratio that no ratio of the table is below,
    the smallest achievable ratio.  For a positive ratio strictly below it
    and initial cogs of the cog set, the search ends without a goal and
    [generate_shifts] returns no sequence and raises neither error of its
    checks: it fails with [TypeError] on [origin + goal]. *)
Theorem no_goal_below_smallest_ratio
        `{!PyFloatLaws F} (ratio smallest : F) (ifront irear : Z) :
  fltb (float_of_int 0) ratio = true ->
  contains ifront FRONT = true -> contains irear REAR = true ->
  (forall front rear, In front FRONT -> In rear REAR ->
     fleb smallest (fdiv (float_of_int front) (float_of_int rear)) = true) ->
  fltb ratio smallest = true ->
  Shiftseq.goal (search ratio ifront irear) = None /\
  generate_shifts ratio ifront irear = Raise TypeError.
Proof.
  intros Hpos Hf Hr Hleast Hbelow.
  assert (Hv : valid_call ratio ifront irear)
    by (split; [now apply fltb_fleb | split; assumption]).
  assert (Hg : Shiftseq.goal (search ratio ifront irear) = None).
  { apply (search_no_goal_below FRONT REAR ratio ifront irear).
    intros front rear Hfin Hrin.
    apply (fltb_fleb_trans ratio smallest); [exact Hbelow |].
    now apply Hleast. }
  split; [exact Hg |].
  exact (generate_shifts_no_goal FRONT REAR ratio ifront irear Hv Hg).
Qed.
End Properties.

(** ** The checks of [generate_shifts] *)

Section Checks.
Context {F : Type} `{PyFloat F}.
Variables FRONT REAR : list Z.

Local Abbreviation generate_shifts := (Shiftseq.generate_shifts FRONT REAR).

(** A ratio that is zero or negative raises [ValueError] whatever the
    initial cogs. *)
Lemma generate_shifts_bad_ratio (ratio : F) (ifront irear : Z) :
  fleb ratio (float_of_int 0) = true ->
  generate_shifts ratio ifront irear =
  Raise (ValueError "Invalid gear ratio '{}'"%string).
Proof. intros Hr. unfold Shiftseq.generate_shifts. now rewrite Hr. Qed.

(** An initial front cog outside the cog set raises [UnboundLocalError]
    on [front]. *)
Lemma generate_shifts_bad_front (ratio : F) (ifront irear : Z) :
  fleb ratio (float_of_int 0) = false ->
  contains ifront FRONT = false ->
  generate_shifts ratio ifront irear = Raise (UnboundLocalError "front"%string).
Proof. intros Hr Hf. unfold Shiftseq.generate_shifts. now rewrite Hr, Hf. Qed.

(** An initial rear cog outside the cog set raises [UnboundLocalError]
    on [rear]. *)
Lemma generate_shifts_bad_rear (ratio : F) (ifront irear : Z) :
  fleb ratio (float_of_int 0) = false ->
  contains ifront FRONT = true ->
  contains irear REAR = false ->
  generate_shifts ratio ifront irear = Raise (UnboundLocalError "rear"%string).
Proof. intros Hr Hf Hb. unfold Shiftseq.generate_shifts. now rewrite Hr, Hf, Hb. Qed.
End Checks.

(** ** The planner on concrete cog sets, in binary64 *)

(** C1, as stated, fails: with front cogs 40, 30 and rear cogs 24, 32 the
    rear-axis move from (0, 0) toward (1, 1) has ratio 40/32 = 1.25 and the
    front-axis move has ratio 30/24 = 1.25; on this tie [find_next] returns
    the front-axis move (1, 0), not the rear-axis move (0, 1). *)
Lemma find_next_tie_takes_front_move :
  Shiftseq.ratio_at (F:=float) [40; 30] [24; 32] (0, 1) = Ok 1.25%float /\
  Shiftseq.ratio_at (F:=float) [40; 30] [24; 32] (1, 0) = Ok 1.25%float /\
  Shiftseq.find_next (F:=float) [40; 30] [24; 32] 0 0 1 1 = Ok (1, 0) /\
  Shiftseq.find_next (F:=float) [40; 30] [24; 32] 0 0 1 1 <> Ok (0, 1).
Proof.
  repeat split; try (vm_compute; reflexivity).
  vm_compute. discriminate.
Qed.

(** The choice on that tie. *)
Lemma find_next_both_axes_choice_witness :
  (fltb 1.25%float 1.25%float = true ->
   Shiftseq.find_next (F:=float) [40; 30] [24; 32] 0 0 1 1 =
   Ok (0, Shiftseq.toward 0 1)) /\
  (fltb 1.25%float 1.25%float = false ->
   Shiftseq.find_next (F:=float) [40; 30] [24; 32] 0 0 1 1 =
   Ok (Shiftseq.toward 0 1, 0)) /\
  (fltb 1.25%float 1.25%float = false -> fltb 1.25%float 1.25%float = false ->
   Shiftseq.find_next (F:=float) [40; 30] [24; 32] 0 0 1 1 =
   Ok (Shiftseq.toward 0 1, 0)).
Proof.
  apply (find_next_both_axes_choice (F:=float) [40; 30] [24; 32] 0 0 1 1).
  - lia.
  - lia.
  - vm_compute. reflexivity.
  - vm_compute. reflexivity.
Defined.

(** The first step from (0, 0) toward (1, 3) on the grid of the scripts. *)
Lemma find_next_in_range_witness :
  Shiftseq.find_next (F:=float) default_front default_rear 0 0 1 3 =
  (delta_x <- Shiftseq.ratio_at (F:=float) default_front default_rear (0, Shiftseq.toward 0 3) ;;
   delta_y <- Shiftseq.ratio_at (F:=float) default_front default_rear (Shiftseq.toward 0 1, 0) ;;
   Ok (if fltb delta_x delta_y
       then (0, Shiftseq.toward 0 3)
       else (Shiftseq.toward 0 1, 0))) /\
  Shiftseq.in_grid default_front default_rear (0, Shiftseq.toward 0 3) /\
  Shiftseq.in_grid default_front default_rear (Shiftseq.toward 0 1, 0) /\
  (exists delta_x delta_y : float,
      Shiftseq.ratio_at default_front default_rear (0, Shiftseq.toward 0 3) = Ok delta_x /\
      Shiftseq.ratio_at default_front default_rear (Shiftseq.toward 0 1, 0) = Ok delta_y) /\
  (exists c,
      Shiftseq.find_next (F:=float) default_front default_rear 0 0 1 3 = Ok c /\
      Shiftseq.in_grid default_front default_rear c).
Proof.
  apply (find_next_in_range (F:=float) default_front default_rear 0 0 1 3).
  - unfold Shiftseq.in_grid. simpl. lia.
  - unfold Shiftseq.in_grid. simpl. lia.
  - lia.
  - lia.
Defined.

(** From cogs 38 and 28 to ratio 1.5 there is nothing to shift: 38/28 is
    the closest ratio not above 1.5. *)
Lemma origin_is_goal_no_shift_witness :
  Shiftseq.generate_shifts (F:=float) default_front default_rear 1.5%float 38 28 = Ok [].
Proof.
  apply (origin_is_goal_no_shift default_front default_rear 1.5%float 38 28 (0, 0)).
  - repeat split; vm_compute; reflexivity.
  - vm_compute. reflexivity.
  - vm_compute. reflexivity.
Defined.

(** The sequence from cogs 38 and 28 to ratio 1.875. *)
Lemma sequence_single_axis_steps_witness :
  Shiftseq.single_steps [(0, 0); (1, 0); (1, 1); (1, 2); (1, 3)].
Proof.
  apply (sequence_single_axis_steps (F:=float) default_front default_rear 1.875%float 38 28).
  vm_compute. reflexivity.
Defined.

(** C3, as stated, fails: from cogs 38 and 28 to ratio 1.875, which the
    combination 30/16 achieves, the sequence has the five coordinates of
    the origin and four shifts, one more than (2-1) + (4-1). *)
Lemma sequence_length_exceeds_diameter :
  Shiftseq.valid_call (F:=float) default_front default_rear 1.875%float 38 28 /\
  fleb (fdiv (float_of_int 30) (float_of_int 16)) 1.875%float = true /\
  Shiftseq.generate_shifts (F:=float) default_front default_rear 1.875%float 38 28 =
  Ok [(0, 0); (1, 0); (1, 1); (1, 2); (1, 3)] /\
  ~ Nat.le (List.length [(0, 0); (1, 0); (1, 1); (1, 2); (1, 3)])
           ((List.length default_front - 1) + (List.length default_rear - 1))%nat.
Proof.
  repeat split; try (vm_compute; reflexivity).
  simpl. lia.
Qed.

(** The same call within the bound (2-1) + (4-1) + 1. *)
Lemma sequence_length_bound_witness :
  exists sequence,
    Shiftseq.generate_shifts (F:=float) default_front default_rear 1.875%float 38 28 =
    Ok sequence /\
    (List.length sequence <=
     (List.length default_front - 1) + (List.length default_rear - 1) + 1)%nat.
Proof.
  apply (sequence_length_bound default_front default_rear 1.875%float 38 28 30 16).
  - repeat split; vm_compute; reflexivity.
  - simpl. auto.
  - simpl. auto.
  - vm_compute. reflexivity.
Defined.

(** The same call ends at (1, 3), the cogs 30 and 16 of [compute_combo]. *)
Lemma sequence_ends_at_compute_combo_witness :
  exists sequence combo,
    Shiftseq.generate_shifts (F:=float) default_front default_rear 1.875%float 38 28 =
    Ok sequence /\
    Gearcombo.compute_combo default_front default_rear 1.875%float = Ok combo /\
    Shiftseq.cogs_of default_front default_rear (1, 3) = Ok combo /\
    ((sequence = [] /\ combo = (38, 28)) \/ getitem sequence (-1) = Ok (1, 3)).
Proof.
  apply (sequence_ends_at_compute_combo default_front default_rear 1.875%float 38 28 (1, 3)).
  - repeat split; vm_compute; reflexivity.
  - vm_compute. reflexivity.
Defined.

(** The same call: four applications of the step rule for distance 4. *)
Lemma loop_terminates_within_distance_witness :
  exists sequence,
    Shiftseq.generate_shifts (F:=float) default_front default_rear 1.875%float 38 28 =
    Ok sequence /\
    Nat.le (Nat.pred (List.length sequence)) (Shiftseq.distance (0, 0) (1, 3)) /\
    Shiftseq.iterate_next (F:=float) default_front default_rear
      (Shiftseq.distance (0, 0) (1, 3)) (0, 0) (1, 3) = Ok (1, 3) /\
    Shiftseq.single_steps sequence /\
    NoDup sequence.
Proof.
  apply (loop_terminates_within_distance default_front default_rear 1.875%float 38 28).
  - repeat split; vm_compute; reflexivity.
  - vm_compute. reflexivity.
  - vm_compute. reflexivity.
Defined.

(** C2 fails on the code: for the target ratio 1000002.0 every ratio of the
    table is below the target, yet each delta is at least 999999.0, the
    initial [min_delta], so no combination passes [delta < min_delta] and
    [compute_combo] returns its initial [( 0, 0 )], which is no combination of
    the cog set; the closest ratio not above the target is 38/16.  The search
    of [generate_shifts] ends without a goal in the same way. *)
Theorem compute_combo_large_target :
  fleb 1000002%float (float_of_int 0) = false /\
  forallb (forallb (fun r : float => fleb r 1000002%float))
          (Shiftseq._combos default_front default_rear) = true /\
  Gearcombo.compute_combo default_front default_rear 1000002%float = Ok (0, 0) /\
  contains 0 default_front = false /\
  Shiftseq.goal (Shiftseq.search default_front default_rear 1000002%float 38 28) = None /\
  Shiftseq.generate_shifts default_front default_rear 1000002%float 38 28 =
  Raise TypeError.
Proof. repeat split; vm_compute; reflexivity. Qed.

(** C8 fails on the code for the origin: with a valid ratio, an initial
    front cog 39 or an initial rear cog 29 that is not in the cog set raises
    [UnboundLocalError], not [ValueError]; the zero and the negative ratio
    raise [ValueError]. *)
Theorem invalid_origin_raises_unbound_local :
  Shiftseq.generate_shifts default_front default_rear 1.5%float 39 28 =
  Raise (UnboundLocalError "front"%string) /\
  Shiftseq.generate_shifts default_front default_rear 1.5%float 38 29 =
  Raise (UnboundLocalError "rear"%string) /\
  Shiftseq.generate_shifts default_front default_rear 0%float 38 28 =
  Raise (ValueError "Invalid gear ratio '{}'"%string) /\
  Shiftseq.generate_shifts default_front default_rear (-1.5)%float 39 28 =
  Raise (ValueError "Invalid gear ratio '{}'"%string).
Proof. repeat split; vm_compute; reflexivity. Qed.

(** The smallest ratio of the table of the scripts is 30/28. *)
Lemma default_smallest_ratio (front rear : Z) :
  In front default_front -> In rear default_rear ->
  fleb (fdiv (float_of_int 30) (float_of_int 28) : float)
       (fdiv (float_of_int front) (float_of_int rear)) = true.
Proof.
  intros Hf Hr. simpl in Hf, Hr.
  destruct Hf as [<- | [<- | []]];
    destruct Hr as [<- | [<- | [<- | [<- | []]]]];
    vm_compute; reflexivity.
Qed.

(** Ratio 1.0 is below 30/28: no goal, and [TypeError]. *)
Lemma no_goal_below_smallest_ratio_witness :
  Shiftseq.goal (Shiftseq.search default_front default_rear 1%float 38 28) = None /\
  Shiftseq.generate_shifts default_front default_rear 1%float 38 28 = Raise TypeError.
Proof.
  apply (no_goal_below_smallest_ratio (F:=float) default_front default_rear
           1%float (fdiv (float_of_int 30) (float_of_int 28)) 38 28).
  - vm_compute. reflexivity.
  - vm_compute. reflexivity.
  - vm_compute. reflexivity.
  - exact default_smallest_ratio.
  - vm_compute. reflexivity.
Defined.

(** With the cog set of the scripts, every positive binary64 ratio below
    30/28 and every initial gearing of the cog set make [generate_shifts]
    fail with [TypeError]. *)
Lemma default_no_goal_below_30_28 (ratio : float) (ifront irear : Z) :
  fltb (float_of_int 0) ratio = true ->
  contains ifront default_front = true ->
  contains irear default_rear = true ->
  fltb ratio (fdiv (float_of_int 30) (float_of_int 28)) = true ->
  Shiftseq.generate_shifts default_front default_rear ratio ifront irear =
  Raise TypeError.
Proof.
  intros Hpos Hf Hr Hbelow.
  apply generate_shifts_no_goal.
  - split; [now apply fltb_fleb | split; assumption].
  - apply (search_no_goal_below (F:=float) default_front default_rear ratio ifront irear).
    intros front rear Hfin Hrin.
    apply (fltb_fleb_trans ratio (fdiv (float_of_int 30) (float_of_int 28)));
      [exact Hbelow | now apply default_smallest_ratio].
Qed.

(** No two cells of the table of the scripts hold the same ratio, so with
    their cog set the step rule never meets a tie. *)
Lemma default_table_has_no_tie :
  let ratios := List.concat (Shiftseq._combos (F:=float) default_front default_rear) in
  forallb (fun i =>
    forallb (fun j =>
      Nat.eqb i j
      || fltb (nth i ratios 0%float) (nth j ratios 0%float)
      || fltb (nth j ratios 0%float) (nth i ratios 0%float))
      (seq 0 (List.length ratios)))
    (seq 0 (List.length ratios)) = true.
Proof. vm_compute. reflexivity. Qed.

(** ** Indexing the table *)

Section Indexing.
Context {A : Type}.

Lemma getitem_indexable (l : list A) (i : Z) :
  indexable l i -> exists a, getitem l i = Ok a.
Proof.
  unfold indexable, getitem. intros Hi.
  destruct (Z.ltb_spec i 0).
  - replace ((0 <=? i + Z.of_nat (List.length l)) &&
             (i + Z.of_nat (List.length l) <? Z.of_nat (List.length l))) with true
      by (symmetry; apply andb_true_iff; split;
          [apply Z.leb_le | apply Z.ltb_lt]; lia).
    destruct (nth_error l (Z.to_nat (i + Z.of_nat (List.length l)))) as [a|] eqn:En;
      [eauto |].
    apply nth_error_None in En. lia.
  - destruct (getitem_in_range l i) as (a & Ha & _); [lia |].
    unfold getitem in Ha. destruct (Z.ltb_spec i 0); [lia |]. eauto.
Qed.

Lemma getitem_not_indexable (l : list A) (i : Z) :
  ~ indexable l i -> getitem l i = Raise IndexError.
Proof.
  unfold indexable, getitem. intros Hi.
  destruct (Z.ltb_spec i 0);
    (destruct (_ && _) eqn:E;
     [apply andb_true_iff in E as [E1%Z.leb_le E2%Z.ltb_lt]; lia | reflexivity]).
Qed.

Lemma getitem_raises (l : list A) (i : Z) (e : exn) :
  getitem l i = Raise e -> e = IndexError /\ ~ indexable l i.
Proof.
  intros Hr. split.
  - unfold getitem in Hr.
    destruct (_ && _); [destruct (nth_error _ _) |]; congruence.
  - intros Hi. apply getitem_indexable in Hi as (a & Ha). congruence.
Qed.

Lemma getitem_ok_indexable (l : list A) (i : Z) (a : A) :
  getitem l i = Ok a -> indexable l i.
Proof.
  intros Ha. destruct (Z_lt_dec i (- Z.of_nat (List.length l))) as [Hlo|Hlo];
    [rewrite getitem_not_indexable in Ha by (unfold indexable; lia); discriminate |].
  destruct (Z_le_dec (Z.of_nat (List.length l)) i) as [Hhi|Hhi];
    [rewrite getitem_not_indexable in Ha by (unfold indexable; lia); discriminate |].
  unfold indexable. lia.
Qed.

Lemma indexable_dec (l : list A) (i : Z) : {indexable l i} + {~ indexable l i}.
Proof.
  unfold indexable.
  destruct (Z_le_dec (- Z.of_nat (List.length l)) i);
    [destruct (Z_lt_dec i (Z.of_nat (List.length l))) |];
    (left; lia) || (right; lia).
Qed.

(** Indexing commutes with [map]. *)
Lemma getitem_map {B : Type} (f : A -> B) (l : list A) (i : Z) :
  getitem (map f l) i =
  match getitem l i with
  | Ok a => Ok (f a)
  | Raise e => Raise e
  end.
Proof.
  unfold getitem. rewrite length_map.
  destruct (_ && _); [| reflexivity].
  rewrite nth_error_map. now destruct (nth_error l _).
Qed.
End Indexing.

Section Table.
Context {F : Type} `{PyFloat F}.
Variables FRONT REAR : list Z.

Local Abbreviation find_next := (Shiftseq.find_next FRONT REAR).
Local Abbreviation ratio_at := (Shiftseq.ratio_at FRONT REAR).
Local Abbreviation cogs_of := (Shiftseq.cogs_of FRONT REAR).
Local Abbreviation toward := Shiftseq.toward.

(** The table at an index pair is the ratio of the cogs at that pair. *)
Lemma ratio_at_cogs_of (c : coord) :
  ratio_at c =
  (cogs <- cogs_of c ;;
   Ok (fdiv (float_of_int (fst cogs)) (float_of_int (snd cogs)))).
Proof.
  unfold Shiftseq.ratio_at, Shiftseq.cogs_of, Shiftseq._combos.
  rewrite getitem_map.
  destruct (getitem FRONT (fst c)) as [front|e]; cbn [bind]; [| reflexivity].
  rewrite getitem_map.
  now destruct (getitem REAR (snd c)).
Qed.

(** A read of the table succeeds at every pair of defined indexes. *)
Lemma ratio_at_defined (y x : Z) :
  indexable FRONT y -> indexable REAR x ->
  exists front rear,
    getitem FRONT y = Ok front /\ getitem REAR x = Ok rear /\
    ratio_at (y, x) = Ok (fdiv (float_of_int front) (float_of_int rear)).
Proof.
  intros Hy Hx. rewrite ratio_at_cogs_of. unfold Shiftseq.cogs_of. cbn [fst snd].
  destruct (getitem_indexable FRONT y Hy) as (front & Hf).
  destruct (getitem_indexable REAR x Hx) as (rear & Hr).
  exists front, rear. rewrite Hf, Hr. auto.
Qed.

(** Elsewhere it raises [IndexError]. *)
Lemma ratio_at_undefined (y x : Z) :
  ~ (indexable FRONT y /\ indexable REAR x) ->
  ratio_at (y, x) = Raise IndexError.
Proof.
  intros Hn. rewrite ratio_at_cogs_of. unfold Shiftseq.cogs_of. cbn [fst snd].
  destruct (getitem FRONT y) as [front|e] eqn:Ef.
  - destruct (getitem REAR x) as [rear|e] eqn:Er.
    + exfalso. apply Hn. split; eapply getitem_ok_indexable; eassumption.
    + apply getitem_raises in Er as [-> _]. reflexivity.
  - apply getitem_raises in Ef as [-> _]. reflexivity.
Qed.

(** X1: [_combos[ y ][ x ]] is defined exactly where [_FRONT_COGS[ y ]] and
    [_REAR_COGS[ x ]] are, negative indexes included; there it is the ratio
    [front / float( rear )] of these two cogs, and elsewhere the read raises
    [IndexError]. *)
Theorem table_entry_is_cog_ratio (y x : Z) :
  (indexable FRONT y /\ indexable REAR x ->
   exists front rear,
     getitem FRONT y = Ok front /\ getitem REAR x = Ok rear /\
     ratio_at (y, x) = Ok (fdiv (float_of_int front) (float_of_int rear))) /\
  (~ (indexable FRONT y /\ indexable REAR x) ->
   ratio_at (y, x) = Raise IndexError).
Proof.
  split; [intros [Hy Hx]; now apply ratio_at_defined | apply ratio_at_undefined].
Qed.

Lemma ratio_at_raises (c : coord) (e : exn) :
  ratio_at c = Raise e -> e = IndexError.
Proof.
  destruct c as [y x]. intros Hr.
  destruct (indexable_dec FRONT y) as [Hy|Hy];
    [destruct (indexable_dec REAR x) as [Hx|Hx] |].
  - destruct (ratio_at_defined y x Hy Hx) as (? & ? & _ & _ & Hd). congruence.
  - rewrite ratio_at_undefined in Hr by tauto. congruence.
  - rewrite ratio_at_undefined in Hr by tauto. congruence.
Qed.

Lemma ratio_at_ok_indexable (y x : Z) (d : F) :
  ratio_at (y, x) = Ok d -> indexable FRONT y /\ indexable REAR x.
Proof.
  intros Hd.
  destruct (indexable_dec FRONT y) as [Hy|Hy];
    [destruct (indexable_dec REAR x) as [Hx|Hx]; [now split |] |];
    rewrite ratio_at_undefined in Hd by tauto; discriminate.
Qed.

(** With both axes to move, the step rule returns when its four indexes
    are defined and raises [IndexError] otherwise. *)
Lemma find_next_both_axes_outcome (curr_y curr_x final_y final_x : Z) :
  curr_y <> final_y -> curr_x <> final_x ->
  (indexable FRONT curr_y /\ indexable FRONT (toward curr_y final_y) /\
   indexable REAR curr_x /\ indexable REAR (toward curr_x final_x) ->
   exists c, find_next curr_y curr_x final_y final_x = Ok c) /\
  (~ (indexable FRONT curr_y /\ indexable FRONT (toward curr_y final_y) /\
      indexable REAR curr_x /\ indexable REAR (toward curr_x final_x)) ->
   find_next curr_y curr_x final_y final_x = Raise IndexError).
Proof.
  intros Hy Hx. rewrite (find_next_reads FRONT REAR _ _ _ _ Hy Hx). split.
  - intros (Hcy & Hny & Hcx & Hnx).
    destruct (ratio_at_defined curr_y (toward curr_x final_x) Hcy Hnx)
      as (? & ? & _ & _ & ->).
    destruct (ratio_at_defined (toward curr_y final_y) curr_x Hny Hcx)
      as (? & ? & _ & _ & ->).
    cbn [bind]. eauto.
  - intros Hn.
    destruct (ratio_at (curr_y, toward curr_x final_x)) as [dx|e] eqn:Ex;
      cbn [bind]; [| now rewrite (ratio_at_raises _ _ Ex)].
    destruct (ratio_at (toward curr_y final_y, curr_x)) as [dy|e] eqn:Ey;
      cbn [bind]; [| now rewrite (ratio_at_raises _ _ Ey)].
    exfalso. apply Hn.
    apply ratio_at_ok_indexable in Ex as [? ?], Ey as [? ?]. tauto.
Qed.

(** X2: [find_next] raises nothing but [IndexError], and raises it exactly
    when both axes have to move and one of the four indexes it uses, the
    current and the next one on each axis, is not a defined index of the
    table; with a negative index down to [-len] it reads from the end of
    the table instead of failing. *)
Theorem find_next_raises_iff (curr_y curr_x final_y final_x : Z) (e : exn) :
  find_next curr_y curr_x final_y final_x = Raise e <->
  e = IndexError /\ curr_y <> final_y /\ curr_x <> final_x /\
  ~ (indexable FRONT curr_y /\ indexable FRONT (toward curr_y final_y) /\
     indexable REAR curr_x /\ indexable REAR (toward curr_x final_x)).
Proof.
  split.
  - intros Hr.
    destruct (Z.eq_dec curr_y final_y) as [Ey|Ny];
      [rewrite find_next_one_axis in Hr by (now left); discriminate |].
    destruct (Z.eq_dec curr_x final_x) as [Ex|Nx];
      [rewrite find_next_one_axis in Hr by (now right); discriminate |].
    destruct (find_next_both_axes_outcome _ _ _ _ Ny Nx) as [Hok Hbad].
    assert (Hn : ~ (indexable FRONT curr_y /\ indexable FRONT (toward curr_y final_y) /\
                    indexable REAR curr_x /\ indexable REAR (toward curr_x final_x))).
    { intros Hall. destruct (Hok Hall) as (c & Hc). congruence. }
    rewrite (Hbad Hn) in Hr. injection Hr as <-. auto.
  - intros (-> & Ny & Nx & Hn).
    now apply (find_next_both_axes_outcome _ _ _ _ Ny Nx).
Qed.

(** X3: the goal is a terminal state of the step rule for all integers,
    on the grid or off it: any number of applications of [find_next] at
    the goal stays at the goal and reads nothing. *)
Theorem goal_is_absorbing (n : nat) (g : coord) :
  Shiftseq.iterate_next FRONT REAR n g g = Ok g.
Proof.
  induction n as [|n IH]; [reflexivity |].
  cbn [Shiftseq.iterate_next].
  rewrite find_next_one_axis by (now left).
  destruct (toward_cases (fst g) (fst g)) as [[? E1]|[[? E1]|[_ E1]]]; try lia.
  destruct (toward_cases (snd g) (snd g)) as [[? E2]|[[? E2]|[_ E2]]]; try lia.
  rewrite E1, E2. cbn [bind]. rewrite <- surjective_pairing. exact IH.
Qed.
End Table.

(** ** The shape of the returned sequence *)

Section Path.
Context {F : Type} `{PyFloat F}.
Variables FRONT REAR : list Z.

Local Abbreviation find_next := (Shiftseq.find_next FRONT REAR).
Local Abbreviation walk := (Shiftseq.walk FRONT REAR).
Local Abbreviation in_grid := (Shiftseq.in_grid FRONT REAR).
Local Abbreviation cogs_of := (Shiftseq.cogs_of FRONT REAR).
Local Abbreviation generate_shifts := (Shiftseq.generate_shifts FRONT REAR).
Local Abbreviation search := (Shiftseq.search FRONT REAR).
Local Abbreviation valid_call := (Shiftseq.valid_call FRONT REAR).
Local Abbreviation toward := Shiftseq.toward.
Local Abbreviation distance := Shiftseq.distance.

(** A step lands between the current coordinate and the goal. *)
Lemma find_next_in_box (a g c : coord) :
  find_next (fst a) (snd a) (fst g) (snd g) = Ok c -> in_box a g c.
Proof.
  destruct a as [cy cx], g as [gy gx]. cbn [fst snd]. intros Hc.
  apply find_next_result in Hc. unfold in_box, between. cbn [fst snd].
  destruct (toward_cases cy gy) as [[? Ey]|[[? Ey]|[? Ey]]];
    destruct (toward_cases cx gx) as [[? Ex]|[[? Ex]|[? Ex]]];
    rewrite Ey, Ex in Hc;
    destruct Hc as [[? ->]|[[? ->]|(? & ? & [-> | ->])]];
    cbn [fst snd]; lia.
Qed.

Lemma in_box_narrow (a g c d : coord) :
  in_box a g c -> in_box c g d -> in_box a g d.
Proof. unfold in_box, between. lia. Qed.

Lemma in_box_start (a g : coord) : in_box a g a.
Proof. unfold in_box, between. lia. Qed.

Lemma in_box_in_grid (o g c : coord) :
  in_grid o -> in_grid g -> in_box o g c -> in_grid c.
Proof. unfold Shiftseq.in_grid, in_box, between. lia. Qed.

(** A walk stays in the rectangle spanned by its start and the goal. *)
Lemma walk_in_box (g a : coord) (l : list coord) :
  walk g a l -> Forall (in_box a g) (a :: l).
Proof.
  induction 1 as [|a c l Hne Hc Hw IH];
    [constructor; [apply in_box_start | constructor] |].
  constructor; [apply in_box_start |].
  pose proof (find_next_in_box a g c Hc) as Hbox.
  eapply Forall_impl; [| exact IH].
  intros d Hd. exact (in_box_narrow a g c d Hbox Hd).
Qed.

(** The entry at position [k] of a walk is [k] steps closer to the goal. *)
Lemma walk_nth_distance (g a : coord) (l : list coord) :
  walk g a l ->
  forall (k : nat) (c : coord),
    nth_error (a :: l) k = Some c -> (distance c g + k = distance a g)%nat.
Proof.
  induction 1 as [|a c l Hne Hc Hw IH]; intros k d Hk.
  - destruct k as [|[|k]]; cbn in Hk; try discriminate.
    injection Hk as <-. lia.
  - destruct k as [|k]; [cbn in Hk; injection Hk as <-; lia |].
    cbn [nth_error] in Hk. specialize (IH k d Hk).
    destruct (find_next_step FRONT REAR a g c Hne Hc) as (_ & Hdist & _). lia.
Qed.

(** From the goal the walk is empty. *)
Lemma walk_from_goal (g : coord) (l : list coord) : walk g g l -> l = [].
Proof.
  inversion 1 as [|a c l' Hne Hc Hw]; [reflexivity |].
  now rewrite coord_eqb_refl in Hne.
Qed.

(** The walk from a coordinate is unique. *)
Lemma walk_unique (g a : coord) (l l' : list coord) :
  walk g a l -> walk g a l' -> l = l'.
Proof.
  intros Hw. revert l'. induction Hw as [|a c l Hne Hc Hw IH]; intros l' Hw'.
  - symmetry. exact (walk_from_goal g l' Hw').
  - inversion Hw' as [|a' c' l'' Hne' Hc' Hw'']; subst.
    + now rewrite coord_eqb_refl in Hne.
    + assert (c' = c) by congruence. subst c'. f_equal. now apply IH.
Qed.

(** Every suffix of a walk is the walk from its first entry. *)
Lemma walk_suffix (g a : coord) (l : list coord) :
  walk g a l ->
  forall pre c post, a :: l = pre ++ c :: post -> walk g c post.
Proof.
  induction 1 as [|a c l Hne Hc Hw IH]; intros pre d post Heq.
  - destruct pre as [|x [|y pre]]; cbn in Heq; try discriminate.
    injection Heq as <- <-. constructor.
  - destruct pre as [|x pre]; cbn in Heq.
    + injection Heq as <- <-. now apply Shiftseq.walk_step.
    + injection Heq as _ Heq. exact (IH pre d post Heq).
Qed.


(** X5: a returned sequence is a shortest path: unless it is empty it has
    one coordinate more than the distance from the origin to the goal, and
    its entry at position [k] is exactly [k] shifts closer to the goal than
    the origin. *)
Theorem sequence_is_shortest_path
        (ratio : F) (ifront irear : Z) (sequence : list coord) :
  generate_shifts ratio ifront irear = Ok sequence ->
  exists o g,
    Shiftseq.origin (search ratio ifront irear) = Some o /\
    Shiftseq.goal (search ratio ifront irear) = Some g /\
    ((sequence = [] /\ o = g) \/
     (List.length sequence = S (distance o g) /\
      forall (k : nat) (c : coord),
        nth_error sequence k = Some c ->
        (distance c g + k = distance o g)%nat)).
Proof.
  intros Hs.
  destruct (generate_shifts_ok FRONT REAR ratio ifront irear sequence Hs)
    as (o & g & Ho & Hg & _ & _ & [[Hnil Hog] | (_ & c & l & Hw & ->)]);
    exists o, g; (split; [exact Ho |]); (split; [exact Hg |]); [now left | right].
  split.
  - pose proof (walk_length FRONT REAR g o (c :: l) Hw) as Hlen.
    cbn [List.length] in *. lia.
  - exact (walk_nth_distance g o (c :: l) Hw).
Qed.

(** X6: a returned sequence that is not empty starts with the origin, the
    coordinate at which the cog lists hold the initial cogs: reading the
    first entry back through the cog lists gives the cogs of the call. *)
Theorem sequence_starts_at_initial_cogs
        (ratio : F) (ifront irear : Z) (sequence : list coord) :
  generate_shifts ratio ifront irear = Ok sequence ->
  sequence <> [] ->
  exists o,
    getitem sequence 0 = Ok o /\
    Shiftseq.origin (search ratio ifront irear) = Some o /\
    cogs_of o = Ok (ifront, irear).
Proof.
  intros Hs Hne.
  destruct (generate_shifts_ok FRONT REAR ratio ifront irear sequence Hs)
    as (o & g & Ho & _ & _ & _ & [[_ ->] | (_ & c & l & _ & ->)]);
    [now elim Hne |].
  exists o. split; [reflexivity |]. split; [exact Ho |].
  exact (proj2 (search_origin_sound FRONT REAR ratio ifront irear o Ho)).
Qed.

(** X7: the outcomes of [generate_shifts].  It raises [ValueError] exactly
    for a ratio that is zero or negative, [UnboundLocalError] exactly for
    a valid ratio with an initial cog outside the cog set, [TypeError]
    exactly for a valid call whose search ends without a goal, and returns
    a sequence exactly for a valid call with a goal; it never raises
    [IndexError]. *)
Theorem generate_shifts_outcomes (ratio : F) (ifront irear : Z) :
  match generate_shifts ratio ifront irear with
  | Raise (ValueError _) => fleb ratio (float_of_int 0) = true
  | Raise (UnboundLocalError _) =>
      fleb ratio (float_of_int 0) = false /\
      (contains ifront FRONT = false \/ contains irear REAR = false)
  | Raise TypeError =>
      valid_call ratio ifront irear /\
      Shiftseq.goal (search ratio ifront irear) = None
  | Raise IndexError => False
  | Ok _ =>
      valid_call ratio ifront irear /\
      exists g, Shiftseq.goal (search ratio ifront irear) = Some g
  end.
Proof.
  destruct (fleb ratio (float_of_int 0)) eqn:Er;
    [now rewrite (generate_shifts_bad_ratio FRONT REAR ratio ifront irear Er) |].
  destruct (contains ifront FRONT) eqn:Ef;
    [| rewrite (generate_shifts_bad_front FRONT REAR ratio ifront irear Er Ef); auto].
  destruct (contains irear REAR) eqn:Eb;
    [| rewrite (generate_shifts_bad_rear FRONT REAR ratio ifront irear Er Ef Eb); auto].
  assert (Hv : valid_call ratio ifront irear) by (repeat split; assumption).
  destruct (Shiftseq.goal (search ratio ifront irear)) as [g|] eqn:Hg.
  - destruct (search_origin_found FRONT REAR ratio ifront irear Ef Eb) as (o & Ho).
    destruct (generate_shifts_goal FRONT REAR ratio ifront irear o g Hv Ho Hg)
      as [[_ ->] | (_ & c & l & _ & ->)]; eauto.
  - rewrite (generate_shifts_no_goal FRONT REAR ratio ifront irear Hv Hg). auto.
Qed.
End Path.

(** ** The float order laws of the choice *)

#[export] Instance exact_Q_order : PyFloatOrder Q.
Proof.
  split; cbn [fltb fleb exact_Q].
  - intros a. apply negb_false_iff. apply Qle_bool_iff. apply Qle_refl.
  - intros a b c Hab Hbc.
    apply negb_true_iff in Hab, Hbc. apply negb_true_iff.
    destruct (Qle_bool c a) eqn:E; [| reflexivity].
    apply Qle_bool_iff in E.
    destruct (Qlt_le_dec a b) as [Hlt|Hle];
      [| apply Qle_bool_iff in Hle; congruence].
    destruct (Qlt_le_dec b c) as [Hlt'|Hle'];
      [| apply Qle_bool_iff in Hle'; congruence].
    exfalso. apply (Qlt_irrefl a).
    apply Qlt_le_trans with c; [| exact E].
    now apply Qlt_trans with b.
  - intros z c a b _ _ Hab. apply negb_false_iff in Hab. exact Hab.
Qed.

Module Binary64Order.

Lemma SFltb_irrefl (x : spec_float) : SFltb x x = false.
Proof.
  unfold SFltb.
  destruct x as [[]|[]| |[] m e]; cbn; try reflexivity;
    rewrite Z.compare_refl, Pos.compare_cont_refl; reflexivity.
Qed.

Lemma SFltb_trans (x y z : spec_float) :
  SFltb x y = true -> SFltb y z = true -> SFltb x z = true.
Proof.
  unfold SFltb.
  destruct x as [[]|[]| |[] mx ex], y as [[]|[]| |[] my ey], z as [[]|[]| |[] mz ez];
    cbn; try congruence;
    destruct (Z.compare_spec ex ey); try congruence;
    destruct (Z.compare_spec ey ez); try congruence;
    destruct (Z.compare_spec ex ez); try congruence; try lia;
    change (Pos.compare_cont Eq) with Pos.compare;
    repeat match goal with
      | |- context [Pos.compare ?a ?b] => destruct (Pos.compare_spec a b)
      end; cbn; try congruence; try lia.
Qed.

Lemma SFleb_right_not_nan (z a : spec_float) :
  SFleb z a = true -> a <> S754_nan.
Proof. intros Hle ->. unfold SFleb in Hle. now destruct z. Qed.

Lemma SFltb_right_not_nan (c b : spec_float) :
  SFltb c b = true -> b <> S754_nan.
Proof. intros Hlt ->. unfold SFltb in Hlt. now destruct c. Qed.

(** Two numbers, neither of them the NaN, compare one way or the other. *)
Lemma SFleb_total (a b : spec_float) :
  a <> S754_nan -> b <> S754_nan -> SFltb a b = false -> SFleb b a = true.
Proof.
  unfold SFltb, SFleb. intros Ha Hb.
  rewrite (Binary64.SFcompare_antisym a b).
  destruct a as [[]|[]| |[] ma ea], b as [[]|[]| |[] mb eb];
    try congruence; cbn; try congruence;
    destruct (ea ?= eb); cbn; try congruence;
    destruct (Pos.compare_cont Eq ma mb); cbn; congruence.
Qed.

Lemma ltb_irrefl (a : float) : PrimFloat.ltb a a = false.
Proof. rewrite ltb_spec. apply SFltb_irrefl. Qed.

Lemma ltb_trans (a b c : float) :
  PrimFloat.ltb a b = true -> PrimFloat.ltb b c = true -> PrimFloat.ltb a c = true.
Proof. rewrite !ltb_spec. apply SFltb_trans. Qed.

Lemma leb_total (z c a b : float) :
  PrimFloat.leb z a = true -> PrimFloat.ltb c b = true ->
  PrimFloat.ltb a b = false -> PrimFloat.leb b a = true.
Proof.
  rewrite !leb_spec, !ltb_spec. intros Hza Hcb.
  apply SFleb_total;
    [exact (SFleb_right_not_nan _ _ Hza) | exact (SFltb_right_not_nan _ _ Hcb)].
Qed.
End Binary64Order.

#[export] Instance binary64_order : PyFloatOrder float.
Proof.
  split; cbn [fltb fleb binary64].
  - exact Binary64Order.ltb_irrefl.
  - exact Binary64Order.ltb_trans.
  - exact Binary64Order.leb_total.
Qed.

(** ** The scan in the order of its cells *)

Lemma fold_left_map_arg {A B C : Type} (f : A -> C -> A) (h : B -> C)
      (l : list B) (a : A) :
  fold_left f (map h l) a = fold_left (fun a x => f a (h x)) l a.
Proof. revert a. induction l as [|x l IH]; intros a; cbn; [reflexivity | apply IH]. Qed.

Section FoldOrder.
Context {A B : Type}.

(** Two nested loops are one loop over the pairs, outer index first. *)
Lemma fold_left_list_prod {C : Type} (g : B -> A -> C -> A)
      (l : list B) (l' : list C) (a : A) :
  fold_left (fun a x => fold_left (g x) l' a) l a =
  fold_left (fun a p => g (fst p) a (snd p)) (list_prod l l') a.
Proof.
  revert a. induction l as [|x l IH]; intros a; [reflexivity |].
  cbn [fold_left list_prod]. rewrite fold_left_app, fold_left_map_arg.
  cbn [fst snd]. apply IH.
Qed.

(** A property of the part of the list already visited and the state. *)
Lemma fold_left_prefix (f : A -> B -> A) (P : list B -> A -> Prop) (l : list B) :
  (forall pre x post a, l = pre ++ x :: post -> P pre a -> P (pre ++ [x]) (f a x)) ->
  forall a, P [] a -> P l (fold_left f l a).
Proof.
  intros Hstep.
  assert (Hgen : forall l2 l1 a, l = l1 ++ l2 -> P l1 a -> P l (fold_left f l2 a)).
  { induction l2 as [|x l2 IH]; intros l1 a Hl Ha.
    - rewrite app_nil_r in Hl. now subst l1.
    - cbn [fold_left]. apply (IH (l1 ++ [x])).
      + rewrite <- app_assoc. exact Hl.
      + exact (Hstep l1 x l2 a Hl Ha). }
  intros a Ha. exact (Hgen l [] a eq_refl Ha).
Qed.

(** Two loops over the same list that keep a relation of their states. *)
Lemma fold_left_related {A' : Type} (f : A -> B -> A) (f' : A' -> B -> A')
      (R : A -> A' -> Prop) (l : list B) :
  (forall a a' x, In x l -> R a a' -> R (f a x) (f' a' x)) ->
  forall a a', R a a' -> R (fold_left f l a) (fold_left f' l a').
Proof.
  induction l as [|x l IH]; intros Hstep a a' HR; [exact HR |].
  cbn [fold_left]. apply IH.
  - intros b b' y Hy. apply Hstep. now right.
  - apply Hstep; [now left | exact HR].
Qed.
End FoldOrder.

Section Scan.
Context {F : Type} `{PyFloat F}.
Variables FRONT REAR : list Z.
Variables (ratio : F) (ifront irear : Z).

Local Abbreviation search := (Shiftseq.search FRONT REAR ratio ifront irear).
Local Abbreviation cogs_of := (Shiftseq.cogs_of FRONT REAR).
Local Abbreviation in_grid := (Shiftseq.in_grid FRONT REAR).
Local Abbreviation accepts := (Shiftseq.accepts ratio).
Local Abbreviation visit_cell :=
  (fun st c => Shiftseq.visit ratio ifront irear (fst c) st (snd c)).
Local Abbreviation nonneg :=
  (fun c => fleb (float_of_int 0) (cell_delta ratio c) = true).

(** The two nested loops visit the cells in the order of [cells]. *)
Lemma search_scans_cells :
  search =
  fold_left visit_cell (cells FRONT REAR)
            (Shiftseq.Scan (float_of_int 999999) None None).
Proof.
  unfold Shiftseq.search, cells.
  exact (fold_left_list_prod
           (fun fcell st rcell => Shiftseq.visit ratio ifront irear fcell st rcell)
           (enumerate FRONT) (enumerate REAR) _).
Qed.

(** A cell of the scan is a grid coordinate with its two cogs. *)
Lemma cell_of_scan (c : (Z * Z) * (Z * Z)) :
  In c (cells FRONT REAR) ->
  in_grid (cell_coord c) /\
  cogs_of (cell_coord c) = Ok (snd (fst c), snd (snd c)) /\
  In (snd (fst c)) FRONT /\ In (snd (snd c)) REAR.
Proof.
  destruct c as [[findex front] [rindex rear]]. unfold cells, cell_coord.
  cbn [fst snd]. intros Hin. apply in_prod_iff in Hin as [Hf Hr].
  destruct (cell_in_grid FRONT REAR findex front rindex rear Hf Hr) as [Hg Hc].
  split; [exact Hg |]. split; [exact Hc |].
  apply in_enumerate in Hf as [_ Hf], Hr as [_ Hr].
  split; eapply nth_error_In; eassumption.
Qed.

(** Every combination of the cog set is the pair of cogs of some cell. *)
Lemma scan_has_cell (front rear : Z) :
  In front FRONT -> In rear REAR ->
  exists c, In c (cells FRONT REAR) /\ snd (fst c) = front /\ snd (snd c) = rear.
Proof.
  intros Hf Hr.
  apply In_nth_error in Hf as (nf & Hf), Hr as (nr & Hr).
  exists ((Z.of_nat nf, front), (Z.of_nat nr, rear)).
  split; [| split; reflexivity].
  unfold cells. apply in_prod; apply in_enumerate; rewrite Nat2Z.id.
  - split; [| exact Hf].
    assert ((nf < List.length FRONT)%nat)
      by (apply nth_error_Some; rewrite Hf; discriminate). lia.
  - split; [| exact Hr].
    assert ((nr < List.length REAR)%nat)
      by (apply nth_error_Some; rewrite Hr; discriminate). lia.
Qed.

(** What the scan keeps true of the cells already visited: none of them
    with a delta that is not negative has a delta below [min_delta]; and a
    goal is one of them, its delta is [min_delta] and is strictly below
    the delta of every such cell visited before it. *)
Lemma scan_invariant `{!PyFloatOrder F} `{!PyFloatLaws F} :
  (forall e, In e (cells FRONT REAR) -> nonneg e ->
             fltb (cell_delta ratio e) (Shiftseq.min_delta search) = false) /\
  (forall g, Shiftseq.goal search = Some g ->
     exists pre c post,
       cells FRONT REAR = pre ++ c :: post /\
       cell_coord c = g /\
       Shiftseq.min_delta search = cell_delta ratio c /\
       nonneg c /\
       forall e, In e pre -> nonneg e ->
                 fltb (cell_delta ratio c) (cell_delta ratio e) = true).
Proof.
  rewrite search_scans_cells.
  apply (fold_left_prefix visit_cell
    (fun seen st =>
       (forall e, In e seen -> nonneg e ->
                  fltb (cell_delta ratio e) (Shiftseq.min_delta st) = false) /\
       (forall g, Shiftseq.goal st = Some g ->
          exists pre c post,
            seen = pre ++ c :: post /\
            cell_coord c = g /\
            Shiftseq.min_delta st = cell_delta ratio c /\
            nonneg c /\
            forall e, In e pre -> nonneg e ->
                      fltb (cell_delta ratio c) (cell_delta ratio e) = true)));
    [| split; [intros e [] | discriminate]].
  intros seen x post st _ [Hmin Hgoal].
  rewrite visit_min_delta, visit_goal.
  change (fsub ratio (fdiv (float_of_int (snd (fst x))) (float_of_int (snd (snd x)))))
    with (cell_delta ratio x).
  unfold Shiftseq.accepts.
  change (fsub ratio (fdiv (float_of_int (snd (fst x))) (float_of_int (snd (snd x)))))
    with (cell_delta ratio x).
  destruct (fleb (float_of_int 0) (cell_delta ratio x)) eqn:Ex; cbn [andb];
    [destruct (fltb (cell_delta ratio x) (Shiftseq.min_delta st)) eqn:Elt |].
  - (* the cell is taken *)
    split.
    + intros e He Hnn. apply in_app_or in He as [He | [<- | []]].
      * destruct (fltb (cell_delta ratio e) (cell_delta ratio x)) eqn:E;
          [| reflexivity].
        rewrite <- (Hmin e He Hnn). symmetry.
        exact (fltb_trans _ _ _ E Elt).
      * apply fltb_irrefl.
    + intros g [= <-]. exists seen, x, []. split; [reflexivity |].
      split; [reflexivity |]. split; [reflexivity |]. split; [exact Ex |].
      intros e He Hnn.
      apply (fltb_fleb_trans _ (Shiftseq.min_delta st)); [exact Elt |].
      exact (fleb_total _ _ _ _ Hnn Elt (Hmin e He Hnn)).
  - (* the cell is not below [min_delta] *)
    split.
    + intros e He Hnn. apply in_app_or in He as [He | [<- | []]];
        [now apply Hmin | exact Elt].
    + intros g Hg. destruct (Hgoal g Hg) as (pre & c & post' & -> & Hrest).
      exists pre, c, (post' ++ [x]). split; [| exact Hrest].
      rewrite <- app_assoc. reflexivity.
  - (* the delta of the cell is negative *)
    split.
    + intros e He Hnn. apply in_app_or in He as [He | [<- | []]];
        [now apply Hmin | congruence].
    + intros g Hg. destruct (Hgoal g Hg) as (pre & c & post' & -> & Hrest).
      exists pre, c, (post' ++ [x]). split; [| exact Hrest].
      rewrite <- app_assoc. reflexivity.
Qed.

(** Without a cell that passes the test against the initial 999999.0 the
    scan changes nothing. *)
Lemma search_no_candidate :
  (forall front rear, In front FRONT -> In rear REAR ->
     accepts (float_of_int 999999) front rear = false) ->
  Shiftseq.goal search = None /\
  Shiftseq.min_delta search = float_of_int 999999.
Proof.
  intros Hnone.
  apply (search_preserves FRONT REAR ratio ifront irear
           (fun st => Shiftseq.goal st = None /\
                      Shiftseq.min_delta st = float_of_int 999999));
    [| split; reflexivity].
  intros [findex front] [rindex rear] st Hf Hr [Hg Hm].
  rewrite visit_goal, visit_min_delta, Hm. cbn [fst snd].
  apply in_enumerate in Hf as [_ Hf], Hr as [_ Hr].
  apply nth_error_In in Hf, Hr.
  rewrite (Hnone front rear Hf Hr). split; [exact Hg | reflexivity].
Qed.
End Scan.

(** ** The combination that the two searches choose *)

Section Choice.
Context {F : Type} `{PyFloat F}.
Variables FRONT REAR : list Z.

Local Abbreviation search := (Shiftseq.search FRONT REAR).
Local Abbreviation cogs_of := (Shiftseq.cogs_of FRONT REAR).
Local Abbreviation compute_combo := (Gearcombo.compute_combo FRONT REAR).
Local Abbreviation accepts := Shiftseq.accepts.

(** X8: the search of [generate_shifts] ends without a goal exactly when no
    combination of the cog set passes the test [0 <= delta < 999999.0]
    against the initial [min_delta], whether the ratios are all above the
    target or all too far below it; [compute_combo] then returns its
    initial [( 0, 0 )]. *)
Theorem no_goal_iff_no_candidate (ratio : F) (ifront irear : Z) :
  (Shiftseq.goal (search ratio ifront irear) = None <->
   forall front rear, In front FRONT -> In rear REAR ->
     accepts ratio (float_of_int 999999) front rear = false) /\
  (fleb ratio (float_of_int 0) = false ->
   (forall front rear, In front FRONT -> In rear REAR ->
      accepts ratio (float_of_int 999999) front rear = false) ->
   compute_combo ratio = Ok (0, 0)).
Proof.
  split; [split |].
  - intros Hg front rear Hf Hr.
    destruct (accepts ratio (float_of_int 999999) front rear) eqn:E; [| reflexivity].
    destruct (search_goal_found FRONT REAR ratio ifront irear front rear Hf Hr E)
      as (g & Hg').
    congruence.
  - intros Hnone.
    exact (proj1 (search_no_candidate FRONT REAR ratio ifront irear Hnone)).
  - intros Hpos Hnone.
    destruct (compute_combo_search FRONT REAR ratio 0 0 Hpos) as (combo & Hc & Hcogs).
    rewrite (proj1 (search_no_candidate FRONT REAR ratio 0 0 Hnone)) in Hcogs.
    now subst combo.
Qed.

(** The initial cogs do not enter the choice of the goal. *)
Lemma search_goal_any_origin (ratio : F) (ifront irear ifront' irear' : Z) :
  Shiftseq.goal (search ratio ifront irear) =
  Shiftseq.goal (search ratio ifront' irear').
Proof.
  rewrite !search_scans_cells.
  apply (fold_left_related
           (fun st c => Shiftseq.visit ratio ifront irear (fst c) st (snd c))
           (fun st c => Shiftseq.visit ratio ifront' irear' (fst c) st (snd c))
           (fun st st' => Shiftseq.min_delta st = Shiftseq.min_delta st' /\
                          Shiftseq.goal st = Shiftseq.goal st'));
    [| split; reflexivity].
  intros st st' c _ [Hm Hg].
  rewrite !visit_min_delta, !visit_goal, Hm, Hg.
  split; reflexivity.
Qed.

(** X9: the goal depends on the ratio only: the search finds the same goal
    whatever the initial cogs of the call, and that goal holds the cogs
    that [compute_combo] returns. *)
Theorem goal_independent_of_origin
        (ratio : F) (ifront irear ifront' irear' : Z) (g : coord) :
  Shiftseq.goal (search ratio ifront irear) = Some g ->
  Shiftseq.goal (search ratio ifront' irear') = Some g /\
  (fleb ratio (float_of_int 0) = false ->
   exists combo, compute_combo ratio = Ok combo /\ cogs_of g = Ok combo).
Proof.
  intros Hg. split.
  - now rewrite (search_goal_any_origin ratio ifront' irear' ifront irear).
  - intros Hpos.
    destruct (compute_combo_search FRONT REAR ratio ifront irear Hpos)
      as (combo & Hc & Hcogs).
    rewrite Hg in Hcogs. now exists combo.
Qed.

(** The cogs and the delta of a goal, and the deltas that are not below
    it. *)
Lemma search_goal_closest `{!PyFloatOrder F} `{!PyFloatLaws F}
      (ratio : F) (ifront irear : Z) (g : coord) :
  Shiftseq.goal (search ratio ifront irear) = Some g ->
  exists front rear,
    cogs_of g = Ok (front, rear) /\
    In front FRONT /\ In rear REAR /\
    fleb (fdiv (float_of_int front) (float_of_int rear)) ratio = true /\
    forall front' rear', In front' FRONT -> In rear' REAR ->
      fleb (float_of_int 0) (delta_of ratio front' rear') = true ->
      fltb (delta_of ratio front' rear') (delta_of ratio front rear) = false.
Proof.
  intros Hg.
  destruct (scan_invariant FRONT REAR ratio ifront irear) as [Hmin Hgoal].
  destruct (Hgoal g Hg) as (pre & c & post & Hcells & <- & Hmd & Hnn & _).
  assert (Hc : In c (cells FRONT REAR))
    by (rewrite Hcells; apply in_or_app; right; now left).
  destruct (cell_of_scan FRONT REAR c Hc) as (_ & Hcogs & Hf & Hr).
  exists (snd (fst c)), (snd (snd c)).
  split; [exact Hcogs |]. split; [exact Hf |]. split; [exact Hr |].
  split; [exact (fsub_nonneg _ _ Hnn) |].
  intros front' rear' Hf' Hr' Hnn'.
  destruct (scan_has_cell FRONT REAR front' rear' Hf' Hr') as (e & He & <- & <-).
  rewrite Hmd in Hmin. exact (Hmin e He Hnn').
Qed.

(** X10: the goal of [generate_shifts] is the closest combination from
    below: its ratio is not above the target, and no combination of the
    cog set whose ratio is not above the target has a smaller delta. *)
Theorem goal_is_closest `{!PyFloatOrder F} `{!PyFloatLaws F}
        (ratio : F) (ifront irear : Z) (g : coord) :
  Shiftseq.goal (search ratio ifront irear) = Some g ->
  exists front rear,
    cogs_of g = Ok (front, rear) /\
    fleb (fdiv (float_of_int front) (float_of_int rear)) ratio = true /\
    forall front' rear', In front' FRONT -> In rear' REAR ->
      fleb (float_of_int 0) (delta_of ratio front' rear') = true ->
      fltb (delta_of ratio front' rear') (delta_of ratio front rear) = false.
Proof.
  intros Hg.
  destruct (search_goal_closest ratio ifront irear g Hg)
    as (front & rear & Hc & _ & _ & Hle & Hbest).
  exists front, rear. auto.
Qed.

(** X11: among combinations of equal delta the first one found wins: the
    goal is a cell of the scan, front index ascending and then rear index
    ascending, whose delta is strictly below the delta of every cell
    before it that is not above the target. *)
Theorem goal_is_first_closest `{!PyFloatOrder F} `{!PyFloatLaws F}
        (ratio : F) (ifront irear : Z) (g : coord) :
  Shiftseq.goal (search ratio ifront irear) = Some g ->
  exists pre c post,
    cells FRONT REAR = pre ++ c :: post /\
    cell_coord c = g /\
    fleb (float_of_int 0) (cell_delta ratio c) = true /\
    (forall e, In e pre ->
       fleb (float_of_int 0) (cell_delta ratio e) = true ->
       fltb (cell_delta ratio c) (cell_delta ratio e) = true) /\
    (forall e, In e post ->
       fleb (float_of_int 0) (cell_delta ratio e) = true ->
       fltb (cell_delta ratio e) (cell_delta ratio c) = false).
Proof.
  intros Hg.
  destruct (scan_invariant FRONT REAR ratio ifront irear) as [Hmin Hgoal].
  destruct (Hgoal g Hg) as (pre & c & post & Hcells & Hc & Hmd & Hnn & Hpre).
  exists pre, c, post.
  split; [exact Hcells |]. split; [exact Hc |]. split; [exact Hnn |].
  split; [exact Hpre |].
  intros e He Hnn'. rewrite <- Hmd. apply Hmin; [| exact Hnn'].
  rewrite Hcells. apply in_or_app. right. now right.
Qed.

(** X12: when some combination passes the test [0 <= delta < 999999.0],
    [compute_combo] returns a combination of the cog set whose ratio is
    not above the target, and no combination whose ratio is not above the
    target has a smaller delta. *)
Theorem compute_combo_is_closest `{!PyFloatOrder F} `{!PyFloatLaws F}
        (ratio : F) (front0 rear0 : Z) :
  fleb ratio (float_of_int 0) = false ->
  In front0 FRONT -> In rear0 REAR ->
  accepts ratio (float_of_int 999999) front0 rear0 = true ->
  exists front rear,
    compute_combo ratio = Ok (front, rear) /\
    In front FRONT /\ In rear REAR /\
    fleb (fdiv (float_of_int front) (float_of_int rear)) ratio = true /\
    forall front' rear', In front' FRONT -> In rear' REAR ->
      fleb (float_of_int 0) (delta_of ratio front' rear') = true ->
      fltb (delta_of ratio front' rear') (delta_of ratio front rear) = false.
Proof.
  intros Hpos Hf Hr Hacc.
  destruct (search_goal_found FRONT REAR ratio 0 0 front0 rear0 Hf Hr Hacc)
    as (g & Hg).
  destruct (compute_combo_search FRONT REAR ratio 0 0 Hpos) as (combo & Hc & Hcogs).
  rewrite Hg in Hcogs.
  destruct (search_goal_closest ratio 0 0 g Hg)
    as (front & rear & Hcogs' & Hin & Hin' & Hle & Hbest).
  rewrite Hcogs in Hcogs'. injection Hcogs' as ->.
  exists front, rear. auto.
Qed.
End Choice.

(** The goal for ratio 1.5 on the grid of the scripts is (0, 0). *)
Lemma goal_is_closest_witness :
  exists front rear,
    Shiftseq.cogs_of default_front default_rear (0, 0) = Ok (front, rear) /\
    fleb (fdiv (float_of_int front) (float_of_int rear)) 1.5%float = true /\
    forall front' rear', In front' default_front -> In rear' default_rear ->
      fleb (float_of_int 0) (delta_of 1.5%float front' rear') = true ->
      fltb (delta_of 1.5%float front' rear') (delta_of 1.5%float front rear) = false.
Proof.
  apply (goal_is_closest (F:=float) default_front default_rear 1.5%float 38 28 (0, 0)).
  vm_compute. reflexivity.
Defined.

(** With front cogs 40, 30 and rear cogs 32, 24 the cells (0, 0) and (1, 1)
    both hold the ratio 1.25; for the target 1.5 the goal is the first of
    them. *)
Lemma goal_is_first_closest_witness :
  exists pre c post,
    cells [40; 30] [32; 24] = pre ++ c :: post /\
    cell_coord c = (0, 0) /\
    fleb (float_of_int 0) (cell_delta 1.5%float c) = true /\
    (forall e, In e pre ->
       fleb (float_of_int 0) (cell_delta 1.5%float e) = true ->
       fltb (cell_delta 1.5%float c) (cell_delta 1.5%float e) = true) /\
    (forall e, In e post ->
       fleb (float_of_int 0) (cell_delta 1.5%float e) = true ->
       fltb (cell_delta 1.5%float e) (cell_delta 1.5%float c) = false).
Proof.
  apply (goal_is_first_closest (F:=float) [40; 30] [32; 24] 1.5%float 40 32 (0, 0)).
  vm_compute. reflexivity.
Defined.

(** [compute_combo( 1.5 )] with the cogs of the script. *)
Lemma compute_combo_is_closest_witness :
  exists front rear,
    Gearcombo.compute_combo default_front default_rear 1.5%float = Ok (front, rear) /\
    In front default_front /\ In rear default_rear /\
    fleb (fdiv (float_of_int front) (float_of_int rear)) 1.5%float = true /\
    forall front' rear', In front' default_front -> In rear' default_rear ->
      fleb (float_of_int 0) (delta_of 1.5%float front' rear') = true ->
      fltb (delta_of 1.5%float front' rear') (delta_of 1.5%float front rear) = false.
Proof.
  apply (compute_combo_is_closest (F:=float) default_front default_rear 1.5%float 38 28).
  - vm_compute. reflexivity.
  - simpl. auto.
  - simpl. auto.
  - vm_compute. reflexivity.
Defined.

(** The goal for ratio 1.875 is (1, 3), from the cogs 38, 28 as from the
    cogs 30, 23. *)
Lemma goal_independent_of_origin_witness :
  Shiftseq.goal (Shiftseq.search default_front default_rear 1.875%float 30 23)
  = Some (1, 3) /\
  (fleb 1.875%float (float_of_int 0) = false ->
   exists combo,
     Gearcombo.compute_combo default_front default_rear 1.875%float = Ok combo /\
     Shiftseq.cogs_of default_front default_rear (1, 3) = Ok combo).
Proof.
  apply (goal_independent_of_origin (F:=float) default_front default_rear
           1.875%float 38 28 30 23 (1, 3)).
  vm_compute. reflexivity.
Defined.

(** ** Planning again from a coordinate of the sequence *)

Section Replanning.
Context {F : Type} `{PyFloat F}.
Variables FRONT REAR : list Z.

Local Abbreviation walk := (Shiftseq.walk FRONT REAR).
Local Abbreviation in_grid := (Shiftseq.in_grid FRONT REAR).
Local Abbreviation cogs_of := (Shiftseq.cogs_of FRONT REAR).
Local Abbreviation generate_shifts := (Shiftseq.generate_shifts FRONT REAR).
Local Abbreviation search := (Shiftseq.search FRONT REAR).
Local Abbreviation valid_call := (Shiftseq.valid_call FRONT REAR).

(** The cogs of a grid coordinate. *)
Lemma cogs_of_in_grid (c : coord) :
  in_grid c ->
  exists front rear,
    cogs_of c = Ok (front, rear) /\
    nth_error FRONT (Z.to_nat (fst c)) = Some front /\
    nth_error REAR (Z.to_nat (snd c)) = Some rear.
Proof.
  intros [Hy Hx]. unfold Shiftseq.cogs_of.
  destruct (getitem_in_range FRONT (fst c) Hy) as (front & Hf & Hfn).
  destruct (getitem_in_range REAR (snd c) Hx) as (rear & Hr & Hrn).
  exists front, rear. rewrite Hf, Hr. auto.
Qed.

Lemma contains_In (x : Z) (l : list Z) : In x l -> contains x l = true.
Proof.
  intros Hin. unfold contains. apply existsb_exists.
  exists x. split; [exact Hin | apply Z.eqb_refl].
Qed.

(** Without repeated cogs, a pair of cogs sits at one coordinate only. *)
Lemma cogs_of_injective (c d : coord) (combo : Z * Z) :
  NoDup FRONT -> NoDup REAR ->
  in_grid c -> in_grid d ->
  cogs_of c = Ok combo -> cogs_of d = Ok combo -> c = d.
Proof.
  intros Hnf Hnr Hc Hd Ec Ed.
  destruct (cogs_of_in_grid c Hc) as (f & r & Ec' & Hf & Hr).
  destruct (cogs_of_in_grid d Hd) as (f' & r' & Ed' & Hf' & Hr').
  assert (Efr : (f, r) = (f', r')) by congruence.
  injection Efr as <- <-.
  destruct Hc as [Hcy Hcx], Hd as [Hdy Hdx].
  assert (Ey : Z.to_nat (fst c) = Z.to_nat (fst d)).
  { apply (proj1 (NoDup_nth_error FRONT) Hnf); [| congruence].
    apply nth_error_Some. rewrite Hf. discriminate. }
  assert (Ex : Z.to_nat (snd c) = Z.to_nat (snd d)).
  { apply (proj1 (NoDup_nth_error REAR) Hnr); [| congruence].
    apply nth_error_Some. rewrite Hr. discriminate. }
  destruct c, d. cbn [fst snd] in *. f_equal; lia.
Qed.

(** The coordinates of a returned sequence, as a walk from the origin. *)
Lemma generate_shifts_walk (ratio : F) (ifront irear : Z)
      (sequence : list coord) (c : coord) :
  generate_shifts ratio ifront irear = Ok sequence ->
  In c sequence ->
  exists o g l,
    Shiftseq.goal (search ratio ifront irear) = Some g /\
    in_grid o /\ in_grid g /\ walk g o l /\ sequence = o :: l.
Proof.
  intros Hs Hin.
  destruct (generate_shifts_ok FRONT REAR ratio ifront irear sequence Hs)
    as (o & g & _ & Hg & Hoin & Hgin & [[_ ->] | (_ & d & l & Hw & ->)]);
    [destruct Hin |].
  exists o, g, (d :: l). auto.
Qed.

(** X13: planning again from a gearing on the way gives the rest of the
    way.  With cog lists that hold no cog twice, a call with the cogs of
    any coordinate of a returned sequence returns the sequence from that
    coordinate on, and the empty sequence from the final coordinate. *)
Theorem replanning_returns_suffix
        (ratio : F) (ifront irear : Z) (pre post : list coord) (c : coord) :
  NoDup FRONT -> NoDup REAR ->
  generate_shifts ratio ifront irear = Ok (pre ++ c :: post) ->
  exists front rear,
    cogs_of c = Ok (front, rear) /\
    generate_shifts ratio front rear =
    Ok (match post with [] => [] | _ :: _ => c :: post end).
Proof.
  intros Hnf Hnr Hs.
  pose proof (generate_shifts_ok_valid FRONT REAR ratio ifront irear _ Hs)
    as (Hpos & _ & _).
  destruct (generate_shifts_walk ratio ifront irear _ c Hs)
    as (o & g & l & Hg & Hoin & Hgin & Hw & Heq);
    [apply in_or_app; right; now left |].
  pose proof (walk_suffix FRONT REAR g o l Hw pre c post (eq_sym Heq)) as Hwc.
  assert (Hcin : in_grid c).
  { pose proof (walk_in_box FRONT REAR g o l Hw) as Hbox.
    rewrite <- Heq in Hbox. rewrite Forall_forall in Hbox.
    apply (in_box_in_grid FRONT REAR o g c Hoin Hgin).
    apply Hbox. apply in_or_app. right. now left. }
  destruct (cogs_of_in_grid c Hcin) as (front & rear & Hcogs & Hf & Hr).
  exists front, rear. split; [exact Hcogs |].
  assert (Hv : valid_call ratio front rear).
  { repeat split; [exact Hpos | |]; apply contains_In;
      eapply nth_error_In; eassumption. }
  destruct (search_origin_found FRONT REAR ratio front rear
              (proj1 (proj2 Hv)) (proj2 (proj2 Hv))) as (o' & Ho').
  destruct (search_origin_sound FRONT REAR ratio front rear o' Ho') as [Hoin' Hcogs'].
  assert (o' = c) by exact (cogs_of_injective o' c _ Hnf Hnr Hoin' Hcin Hcogs' Hcogs).
  subst o'.
  assert (Hg' : Shiftseq.goal (search ratio front rear) = Some g)
    by now rewrite (search_goal_any_origin FRONT REAR ratio front rear ifront irear).
  destruct (generate_shifts_goal FRONT REAR ratio front rear c g Hv Ho' Hg')
    as [[-> Hr'] | (Hne & d & l' & Hw' & Hr')]; rewrite Hr'.
  - now rewrite (walk_from_goal FRONT REAR g post Hwc).
  - rewrite (walk_unique FRONT REAR g c post (d :: l') Hwc Hw'). reflexivity.
Qed.
End Replanning.

(** From 38, 28 the way to ratio 1.875 passes 30, 23 at (1, 1); planning
    from there returns the last three coordinates. *)
Lemma replanning_returns_suffix_witness :
  exists front rear,
    Shiftseq.cogs_of default_front default_rear (1, 1) = Ok (front, rear) /\
    Shiftseq.generate_shifts default_front default_rear 1.875%float front rear =
    Ok [(1, 1); (1, 2); (1, 3)].
Proof.
  apply (replanning_returns_suffix (F:=float) default_front default_rear
           1.875%float 38 28 [(0, 0); (1, 0)] [(1, 2); (1, 3)] (1, 1)).
  - repeat constructor; simpl; intuition lia.
  - repeat constructor; simpl; intuition lia.
  - vm_compute. reflexivity.
Defined.

(** ** The entry point of gearcombo.py *)

Section GearcomboEntry.
Context {F : Type} `{PyFloat F}.
Variables FRONT REAR : list Z.

Local Abbreviation compute_combo := (Gearcombo.compute_combo FRONT REAR).
Local Abbreviation main := (GearcomboMain.main FRONT REAR).
Local Abbreviation accepts := Shiftseq.accepts.

Lemma ratio_of_nonzero (front rear : Z) :
  rear <> 0 ->
  ratio_of front rear = Returns (fdiv (float_of_int front) (float_of_int rear)).
Proof.
  intros Hr. unfold ratio_of.
  destruct (Z.eqb_spec rear 0); [contradiction | reflexivity].
Qed.

Lemma nonzero_member (rear : Z) : ~ In 0 REAR -> In rear REAR -> rear <> 0.
Proof. intros Hz Hr ->. exact (Hz Hr). Qed.

(** [main] when some combination passes the test. *)
Lemma main_with_candidate `{!PyFloatLaws F} (ratio : F) (front0 rear0 : Z) :
  ~ In 0 REAR ->
  fleb ratio (float_of_int 0) = false ->
  In front0 FRONT -> In rear0 REAR ->
  accepts ratio (float_of_int 999999) front0 rear0 = true ->
  exists front rear,
    compute_combo ratio = Ok (front, rear) /\
    In front FRONT /\ In rear REAR /\
    fleb (fdiv (float_of_int front) (float_of_int rear)) ratio = true /\
    main ratio =
    Returns (GearcomboMain.Message ratio front rear
               (fdiv (float_of_int front) (float_of_int rear))).
Proof.
  intros Hz Hpos Hf Hr Hacc.
  destruct (compute_combo_below_target FRONT REAR ratio 0 0 front0 rear0
              Hpos Hf Hr Hacc) as (front & rear & Hc & Hin & Hin' & Hle).
  exists front, rear. repeat (split; [assumption |]).
  unfold GearcomboMain.main. rewrite Hc. cbn [outcome_of outcome_bind].
  now rewrite (ratio_of_nonzero front rear (nonzero_member rear Hz Hin')).
Qed.

(** [main] when no combination passes the test. *)
Lemma main_without_candidate (ratio : F) :
  fleb ratio (float_of_int 0) = false ->
  (forall front rear, In front FRONT -> In rear REAR ->
     accepts ratio (float_of_int 999999) front rear = false) ->
  main ratio = Fails ZeroDivisionError.
Proof.
  intros Hpos Hnone.
  destruct (compute_combo_search FRONT REAR ratio 0 0 Hpos) as (combo & Hc & Hcogs).
  rewrite (proj1 (search_no_candidate FRONT REAR ratio 0 0 Hnone)) in Hcogs.
  subst combo. unfold GearcomboMain.main. rewrite Hc. reflexivity.
Qed.

Lemma main_bad_ratio (ratio : F) :
  fleb ratio (float_of_int 0) = true ->
  main ratio = Fails (Uncaught (ValueError "Invalid gear ratio '{}'"%string)).
Proof.
  intros Hr. unfold GearcomboMain.main, Gearcombo.compute_combo.
  now rewrite Hr.
Qed.

(** X14: with rear cogs that are not zero, a valid ratio and a combination
    that passes the test [0 <= delta < 999999.0], the script gearcombo.py
    reports the ratio, the pair of [compute_combo], which is a front and a
    rear cog of the set, and as final ratio their quotient, which is not
    above the requested ratio. *)
Theorem gearcombo_main_reports_combo `{!PyFloatLaws F}
        (ratio : F) (front0 rear0 : Z) :
  ~ In 0 REAR ->
  fleb ratio (float_of_int 0) = false ->
  In front0 FRONT -> In rear0 REAR ->
  accepts ratio (float_of_int 999999) front0 rear0 = true ->
  exists m,
    main ratio = Returns m /\
    GearcomboMain.goal m = ratio /\
    compute_combo ratio = Ok (GearcomboMain.front m, GearcomboMain.rear m) /\
    In (GearcomboMain.front m) FRONT /\ In (GearcomboMain.rear m) REAR /\
    GearcomboMain.final m =
    fdiv (float_of_int (GearcomboMain.front m)) (float_of_int (GearcomboMain.rear m)) /\
    fleb (GearcomboMain.final m) ratio = true.
Proof.
  intros Hz Hpos Hf Hr Hacc.
  destruct (main_with_candidate ratio front0 rear0 Hz Hpos Hf Hr Hacc)
    as (front & rear & Hc & Hin & Hin' & Hle & Hm).
  eexists. split; [exact Hm |]. cbn. auto 7.
Qed.

(** X15: the failures of the script gearcombo.py, with rear cogs that are
    not zero.  It ends with the [ValueError] of [compute_combo] exactly
    for a ratio that is zero or negative, and with [ZeroDivisionError],
    from dividing the initial [( 0, 0 )], exactly for a valid ratio for
    which no combination passes the test; it fails in no other way. *)
Theorem gearcombo_main_failures `{!PyFloatLaws F} (ratio : F) (f : failure) :
  ~ In 0 REAR ->
  main ratio = Fails f <->
  (f = Uncaught (ValueError "Invalid gear ratio '{}'"%string) /\
   fleb ratio (float_of_int 0) = true) \/
  (f = ZeroDivisionError /\
   fleb ratio (float_of_int 0) = false /\
   forall front rear, In front FRONT -> In rear REAR ->
     accepts ratio (float_of_int 999999) front rear = false).
Proof.
  intros Hz. split.
  - intros Hm.
    destruct (fleb ratio (float_of_int 0)) eqn:Hpos.
    + left. rewrite (main_bad_ratio ratio Hpos) in Hm. injection Hm as <-. auto.
    + right.
      assert (Hnone : forall front rear, In front FRONT -> In rear REAR ->
                 accepts ratio (float_of_int 999999) front rear = false).
      { intros front rear Hf Hr.
        destruct (accepts ratio (float_of_int 999999) front rear) eqn:E;
          [| reflexivity].
        destruct (main_with_candidate ratio front rear Hz Hpos Hf Hr E)
          as (? & ? & _ & _ & _ & _ & Hm').
        congruence. }
      rewrite (main_without_candidate ratio Hpos Hnone) in Hm.
      injection Hm as <-. auto.
  - intros [[-> Hpos] | (-> & Hpos & Hnone)].
    + exact (main_bad_ratio ratio Hpos).
    + exact (main_without_candidate ratio Hpos Hnone).
Qed.
End GearcomboEntry.

(** gearcombo.py with the argument 1.5. *)
Lemma gearcombo_main_reports_combo_witness :
  exists m,
    GearcomboMain.main default_front default_rear 1.5%float = Returns m /\
    GearcomboMain.goal m = 1.5%float /\
    Gearcombo.compute_combo default_front default_rear 1.5%float =
    Ok (GearcomboMain.front m, GearcomboMain.rear m) /\
    In (GearcomboMain.front m) default_front /\
    In (GearcomboMain.rear m) default_rear /\
    GearcomboMain.final m =
    fdiv (float_of_int (GearcomboMain.front m)) (float_of_int (GearcomboMain.rear m)) /\
    fleb (GearcomboMain.final m) 1.5%float = true.
Proof.
  apply (gearcombo_main_reports_combo (F:=float) default_front default_rear
           1.5%float 38 28).
  - simpl. intuition lia.
  - vm_compute. reflexivity.
  - simpl. auto.
  - simpl. auto.
  - vm_compute. reflexivity.
Defined.

(** gearcombo.py with the argument 0.5, below every ratio of the set. *)
Lemma gearcombo_main_failures_witness :
  GearcomboMain.main default_front default_rear 0.5%float = Fails ZeroDivisionError <->
  (ZeroDivisionError = Uncaught (ValueError "Invalid gear ratio '{}'"%string) /\
   fleb 0.5%float (float_of_int 0) = true) \/
  (ZeroDivisionError = ZeroDivisionError /\
   fleb 0.5%float (float_of_int 0) = false /\
   forall front rear, In front default_front -> In rear default_rear ->
     Shiftseq.accepts 0.5%float (float_of_int 999999) front rear = false).
Proof.
  apply (gearcombo_main_failures (F:=float) default_front default_rear
           0.5%float ZeroDivisionError).
  simpl. intuition lia.
Defined.

(** ** The entry point of shiftseq.py *)

Section ShiftseqEntry.
Context {F : Type} `{PyFloat F}.
Variables FRONT REAR : list Z.

Local Abbreviation walk := (Shiftseq.walk FRONT REAR).
Local Abbreviation in_grid := (Shiftseq.in_grid FRONT REAR).
Local Abbreviation cogs_of := (Shiftseq.cogs_of FRONT REAR).
Local Abbreviation generate_shifts := (Shiftseq.generate_shifts FRONT REAR).
Local Abbreviation search := (Shiftseq.search FRONT REAR).
Local Abbreviation compute_combo := (Gearcombo.compute_combo FRONT REAR).
Local Abbreviation main := (ShiftseqMain.main FRONT REAR).
Local Abbreviation format_steps := (ShiftseqMain.format_steps FRONT REAR).
Local Abbreviation StepLine := ShiftseqMain.StepLine.

(** The loop over the steps, on grid coordinates: one line for each
    coordinate, numbered from one. *)
Lemma format_steps_lines (l : list coord) :
  ~ In 0 REAR -> Forall in_grid l ->
  forall k : nat,
  exists steps,
    format_steps (enumerate_from k l) = Returns steps /\
    List.length steps = List.length l /\
    forall (n : nat) (c : coord),
      nth_error l n = Some c ->
      exists front rear,
        cogs_of c = Ok (front, rear) /\
        nth_error steps n =
        Some (StepLine (Z.of_nat (k + n) + 1) front rear
                (fdiv (float_of_int front) (float_of_int rear))).
Proof.
  intros Hz. induction 1 as [|c l Hc Hl IH]; intros k.
  - exists []. split; [reflexivity |]. split; [reflexivity |].
    intros [|n] d Hn; discriminate.
  - destruct (IH (S k)) as (steps & Hsteps & Hlen & Hnth).
    destruct (cogs_of_in_grid FRONT REAR c Hc) as (front & rear & Hcogs & Hf & Hr).
    pose proof Hcogs as Hcogs'. unfold Shiftseq.cogs_of in Hcogs'.
    destruct (getitem FRONT (fst c)) as [front'|] eqn:Ef; [| discriminate].
    destruct (getitem REAR (snd c)) as [rear'|] eqn:Er; [| discriminate].
    cbn [bind] in Hcogs'. injection Hcogs' as -> ->.
    eexists. split; [| split].
    + rewrite enumerate_from_cons. cbn [ShiftseqMain.format_steps ShiftseqMain.format_step].
      cbn [fst snd]. rewrite Ef, Er. cbn [outcome_of outcome_bind].
      rewrite (ratio_of_nonzero front rear)
        by (apply (nonzero_member REAR rear Hz); eapply nth_error_In; exact Hr).
      cbn [outcome_bind]. rewrite Hsteps. cbn [outcome_bind]. reflexivity.
    + cbn [List.length]. now rewrite Hlen.
    + intros [|n] d Hn.
      * cbn in Hn. injection Hn as <-. exists front, rear.
        split; [exact Hcogs |]. now rewrite Nat.add_0_r.
      * cbn [nth_error] in Hn. destruct (Hnth n d Hn) as (f' & r' & Hd & Hs).
        exists f', r'. split; [exact Hd |].
        cbn [nth_error]. rewrite Hs. now rewrite Nat.add_succ_r.
Qed.

Lemma enumerate_from_zero {A : Type} (l : list A) : enumerate l = enumerate_from 0 l.
Proof. reflexivity. Qed.

(** [main] on a returned sequence that is not empty. *)
Lemma main_of_sequence (ratio : F) (ifront irear : Z) (sequence : list coord) :
  ~ In 0 REAR ->
  generate_shifts ratio ifront irear = Ok sequence ->
  sequence <> [] ->
  exists g ffront frear steps,
    getitem sequence (-1) = Ok g /\
    cogs_of g = Ok (ffront, frear) /\
    compute_combo ratio = Ok (ffront, frear) /\
    main ratio ifront irear =
    Returns (ShiftseqMain.Shifted ratio ifront irear ffront frear steps) /\
    List.length steps = List.length sequence /\
    forall (n : nat) (c : coord),
      nth_error sequence n = Some c ->
      exists front rear,
        cogs_of c = Ok (front, rear) /\
        nth_error steps n =
        Some (StepLine (Z.of_nat n + 1) front rear
                (fdiv (float_of_int front) (float_of_int rear))).
Proof.
  intros Hz Hs Hne.
  pose proof (generate_shifts_ok_valid FRONT REAR ratio ifront irear _ Hs)
    as (Hpos & _ & _).
  destruct (generate_shifts_ok FRONT REAR ratio ifront irear sequence Hs)
    as (o & g & Ho & Hg & Hoin & Hgin & [[_ ->] | (_ & c & l & Hw & ->)]);
    [now elim Hne |].
  assert (Hgrid : Forall in_grid (o :: c :: l)).
  { eapply Forall_impl; [| exact (walk_in_box FRONT REAR g o (c :: l) Hw)].
    intros d Hd. exact (in_box_in_grid FRONT REAR o g d Hoin Hgin Hd). }
  assert (Hlast : getitem (o :: c :: l) (-1) = Ok g).
  { destruct (walk_ends FRONT REAR g o (c :: l) Hw) as [[_ [=]] | (l' & ->)].
    exact (getitem_last (o :: l') g). }
  destruct (compute_combo_search FRONT REAR ratio ifront irear Hpos)
    as ([ffront frear] & Hcombo & Hcogs).
  rewrite Hg in Hcogs.
  destruct (format_steps_lines (o :: c :: l) Hz Hgrid 0)
    as (steps & Hsteps & Hlen & Hnth).
  exists g, ffront, frear, steps.
  split; [exact Hlast |]. split; [exact Hcogs |]. split; [exact Hcombo |].
  split; [| split; [exact Hlen | exact Hnth]].
  unfold ShiftseqMain.main. rewrite Hs. cbn [outcome_of outcome_bind].
  cbn [List.length]. 
  replace (Z.of_nat (S (S (List.length l))) =? 0) with false
    by (symmetry; apply Z.eqb_neq; lia).
  rewrite Hlast. cbn [outcome_of outcome_bind].
  rewrite enumerate_from_zero, Hsteps. cbn [outcome_bind].
  unfold Shiftseq.cogs_of in Hcogs.
  destruct (getitem FRONT (fst g)) as [a|]; [| discriminate].
  destruct (getitem REAR (snd g)) as [b|]; [| discriminate].
  cbn [bind] in Hcogs. injection Hcogs as -> ->. reflexivity.
Qed.

(** [main] on the empty sequence. *)
Lemma main_of_empty (ratio : F) (ifront irear : Z) :
  ~ In 0 REAR ->
  generate_shifts ratio ifront irear = Ok [] ->
  main ratio ifront irear =
  Returns (ShiftseqMain.Achieved ifront irear
             (fdiv (float_of_int ifront) (float_of_int irear))) /\
  compute_combo ratio = Ok (ifront, irear).
Proof.
  intros Hz Hs.
  pose proof (generate_shifts_ok_valid FRONT REAR ratio ifront irear _ Hs)
    as (Hpos & _ & Hr).
  split.
  - unfold ShiftseqMain.main. rewrite Hs. cbn [outcome_of outcome_bind List.length].
    cbn [Z.of_nat Z.eqb].
    rewrite (ratio_of_nonzero ifront irear); [reflexivity |].
    apply (nonzero_member REAR irear Hz).
    unfold contains in Hr. apply existsb_exists in Hr as (x & Hx & ->%Z.eqb_eq).
    exact Hx.
  - destruct (generate_shifts_ok FRONT REAR ratio ifront irear [] Hs)
      as (o & g & Ho & Hg & _ & _ & [[-> _] | (_ & c & l & _ & [=])]).
    destruct (compute_combo_search FRONT REAR ratio ifront irear Hpos)
      as (combo & Hcombo & Hcogs).
    rewrite Hg in Hcogs.
    destruct (search_origin_sound FRONT REAR ratio ifront irear g Ho) as [_ Hoc].
    congruence.
Qed.

(** X16: when [generate_shifts] returns a sequence that is not empty, the
    script shiftseq.py, with rear cogs that are not zero, reports the
    ratio and the initial cogs of the call, as final cogs the cogs at
    [sequence[ -1 ]], which are the pair of [compute_combo], and one line
    for each coordinate of the sequence, in order and numbered from one,
    with the cogs at that coordinate and their quotient. *)
Theorem shiftseq_main_reports_sequence
        (ratio : F) (ifront irear : Z) (sequence : list coord) :
  ~ In 0 REAR ->
  generate_shifts ratio ifront irear = Ok sequence ->
  sequence <> [] ->
  exists ffront frear steps,
    main ratio ifront irear =
    Returns (ShiftseqMain.Shifted ratio ifront irear ffront frear steps) /\
    compute_combo ratio = Ok (ffront, frear) /\
    List.length steps = List.length sequence /\
    forall (n : nat) (c : coord),
      nth_error sequence n = Some c ->
      exists front rear,
        cogs_of c = Ok (front, rear) /\
        nth_error steps n =
        Some (StepLine (Z.of_nat n + 1) front rear
                (fdiv (float_of_int front) (float_of_int rear))).
Proof.
  intros Hz Hs Hne.
  destruct (main_of_sequence ratio ifront irear sequence Hz Hs Hne)
    as (g & ffront & frear & steps & _ & _ & Hcombo & Hm & Hlen & Hnth).
  exists ffront, frear, steps. auto.
Qed.

(** X17: when [generate_shifts] returns the empty sequence, the script
    reports that the goal ratio is already achieved, with the initial cogs
    and their quotient, and the initial cogs are the pair that
    [compute_combo] returns for the ratio. *)
Theorem shiftseq_main_already_achieved (ratio : F) (ifront irear : Z) :
  ~ In 0 REAR ->
  generate_shifts ratio ifront irear = Ok [] ->
  main ratio ifront irear =
  Returns (ShiftseqMain.Achieved ifront irear
             (fdiv (float_of_int ifront) (float_of_int irear))) /\
  compute_combo ratio = Ok (ifront, irear).
Proof. exact (main_of_empty ratio ifront irear). Qed.

(** X18: with rear cogs that are not zero, the script shiftseq.py fails
    only where [generate_shifts] raises, with that exception: reading the
    cogs of the steps never raises [IndexError] and the quotients never
    raise [ZeroDivisionError]. *)
Theorem shiftseq_main_failures (ratio : F) (ifront irear : Z) (f : failure) :
  ~ In 0 REAR ->
  main ratio ifront irear = Fails f <->
  exists e, generate_shifts ratio ifront irear = Raise e /\ f = Uncaught e.
Proof.
  intros Hz. split.
  - intros Hm.
    destruct (generate_shifts ratio ifront irear) as [sequence | e] eqn:Hs.
    + destruct sequence as [|c l].
      * rewrite (proj1 (main_of_empty ratio ifront irear Hz Hs)) in Hm. discriminate.
      * destruct (main_of_sequence ratio ifront irear (c :: l) Hz Hs)
          as (? & ? & ? & ? & _ & _ & _ & Hm' & _); [discriminate |].
        congruence.
    + exists e. split; [reflexivity |].
      unfold ShiftseqMain.main in Hm. rewrite Hs in Hm.
      cbn [outcome_of outcome_bind] in Hm. congruence.
  - intros (e & Hs & ->). unfold ShiftseqMain.main. now rewrite Hs.
Qed.
End ShiftseqEntry.

(** shiftseq.py with the arguments 1.875 38 28: five lines, ending at the
    cogs 30, 16. *)
Lemma shiftseq_main_reports_sequence_witness :
  exists ffront frear steps,
    ShiftseqMain.main default_front default_rear 1.875%float 38 28 =
    Returns (ShiftseqMain.Shifted 1.875%float 38 28 ffront frear steps) /\
    Gearcombo.compute_combo default_front default_rear 1.875%float =
    Ok (ffront, frear) /\
    List.length steps = List.length [(0, 0); (1, 0); (1, 1); (1, 2); (1, 3)] /\
    forall (n : nat) (c : coord),
      nth_error [(0, 0); (1, 0); (1, 1); (1, 2); (1, 3)] n = Some c ->
      exists front rear,
        Shiftseq.cogs_of default_front default_rear c = Ok (front, rear) /\
        nth_error steps n =
        Some (ShiftseqMain.StepLine (Z.of_nat n + 1) front rear
                (fdiv (float_of_int front) (float_of_int rear))).
Proof.
  apply (shiftseq_main_reports_sequence (F:=float) default_front default_rear
           1.875%float 38 28 [(0, 0); (1, 0); (1, 1); (1, 2); (1, 3)]).
  - simpl. intuition lia.
  - vm_compute. reflexivity.
  - discriminate.
Defined.

(** shiftseq.py with the arguments 1.875 30 16: nothing to shift. *)
Lemma shiftseq_main_already_achieved_witness :
  ShiftseqMain.main default_front default_rear 1.875%float 30 16 =
  Returns (ShiftseqMain.Achieved 30 16
             (fdiv (float_of_int 30) (float_of_int 16))) /\
  Gearcombo.compute_combo default_front default_rear 1.875%float = Ok (30, 16).
Proof.
  apply (shiftseq_main_already_achieved (F:=float) default_front default_rear
           1.875%float 30 16).
  - simpl. intuition lia.
  - vm_compute. reflexivity.
Defined.

(** shiftseq.py with the arguments 0.5 38 28, a ratio below every ratio of
    the set. *)
Lemma shiftseq_main_failures_witness :
  ShiftseqMain.main default_front default_rear 0.5%float 38 28 =
  Fails (Uncaught TypeError) <->
  exists e,
    Shiftseq.generate_shifts default_front default_rear 0.5%float 38 28 = Raise e /\
    Uncaught TypeError = Uncaught e.
Proof.
  apply (shiftseq_main_failures (F:=float) default_front default_rear
           0.5%float 38 28 (Uncaught TypeError)).
  simpl. intuition lia.
Defined.


(** The same sequence has five entries for a distance of four. *)
Lemma sequence_is_shortest_path_witness :
  exists o g,
    Shiftseq.origin (Shiftseq.search default_front default_rear 1.875%float 38 28)
    = Some o /\
    Shiftseq.goal (Shiftseq.search default_front default_rear 1.875%float 38 28)
    = Some g /\
    (([(0, 0); (1, 0); (1, 1); (1, 2); (1, 3)] = [] /\ o = g) \/
     (List.length [(0, 0); (1, 0); (1, 1); (1, 2); (1, 3)]
      = S (Shiftseq.distance o g) /\
      forall (k : nat) (c : coord),
        nth_error [(0, 0); (1, 0); (1, 1); (1, 2); (1, 3)] k = Some c ->
        (Shiftseq.distance c g + k = Shiftseq.distance o g)%nat)).
Proof.
  apply (sequence_is_shortest_path (F:=float) default_front default_rear
           1.875%float 38 28).
  vm_compute. reflexivity.
Defined.

(** The same sequence starts at (0, 0), the place of the cogs 38, 28. *)
Lemma sequence_starts_at_initial_cogs_witness :
  exists o,
    getitem [(0, 0); (1, 0); (1, 1); (1, 2); (1, 3)] 0 = Ok o /\
    Shiftseq.origin (Shiftseq.search default_front default_rear 1.875%float 38 28)
    = Some o /\
    Shiftseq.cogs_of default_front default_rear o = Ok (38, 28).
Proof.
  apply (sequence_starts_at_initial_cogs (F:=float) default_front default_rear
           1.875%float 38 28).
  - vm_compute. reflexivity.
  - discriminate.
Defined.

(** ** The origin of the search *)

Section Origin.
Context {F : Type} `{PyFloat F}.
Variables FRONT REAR : list Z.
Variables (ratio : F) (ifront irear : Z).

Local Abbreviation search := (Shiftseq.search FRONT REAR ratio ifront irear).
Local Abbreviation initial :=
  (fun c : (Z * Z) * (Z * Z) => snd (fst c) = ifront /\ snd (snd c) = irear).

(** What the scan keeps true of the origin and the cells already visited. *)
Lemma origin_invariant :
  (Shiftseq.origin search = None ->
   forall e, In e (cells FRONT REAR) -> ~ initial e) /\
  (forall o, Shiftseq.origin search = Some o ->
     exists pre c post,
       cells FRONT REAR = pre ++ c :: post /\
       cell_coord c = o /\ initial c /\
       forall e, In e post -> ~ initial e).
Proof.
  rewrite search_scans_cells.
  apply (fold_left_prefix
    (fun st c => Shiftseq.visit ratio ifront irear (fst c) st (snd c))
    (fun seen st =>
       (Shiftseq.origin st = None -> forall e, In e seen -> ~ initial e) /\
       (forall o, Shiftseq.origin st = Some o ->
          exists pre c post,
            seen = pre ++ c :: post /\
            cell_coord c = o /\ initial c /\
            forall e, In e post -> ~ initial e)));
    [| split; [intros _ e [] | discriminate]].
  intros seen x post st _ [Hnone Hsome].
  rewrite visit_origin.
  destruct ((snd (fst x) =? ifront) && (snd (snd x) =? irear)) eqn:E.
  - apply andb_true_iff in E as [Ef%Z.eqb_eq Er%Z.eqb_eq].
    split; [discriminate |].
    intros o [= <-]. exists seen, x, [].
    split; [reflexivity |]. split; [reflexivity |]. split; [now split |].
    intros e [].
  - assert (Hx : ~ initial x).
    { intros [Ef Er]. rewrite Ef, Er, !Z.eqb_refl in E. discriminate. }
    split.
    + intros Ho e He. apply in_app_or in He as [He | [<- | []]];
        [now apply Hnone | exact Hx].
    + intros o Ho. destruct (Hsome o Ho) as (pre & c & post' & -> & Hc & Hi & Hpost).
      exists pre, c, (post' ++ [x]).
      split; [now rewrite <- app_assoc |]. split; [exact Hc |]. split; [exact Hi |].
      intros e He. apply in_app_or in He as [He | [<- | []]];
        [now apply Hpost | exact Hx].
Qed.

(** X19: the origin is the last cell of the scan that holds the initial
    cogs: with a cog that occurs twice in its list, the later position is
    the origin, while the goal is the first cell of the smallest delta;
    and the search ends without an origin exactly when the initial pair
    is not a front and a rear cog of the set. *)
Theorem origin_is_last_match :
  (forall o, Shiftseq.origin search = Some o ->
     exists pre c post,
       cells FRONT REAR = pre ++ c :: post /\
       cell_coord c = o /\
       snd (fst c) = ifront /\ snd (snd c) = irear /\
       forall e, In e post -> ~ (snd (fst e) = ifront /\ snd (snd e) = irear)) /\
  (Shiftseq.origin search = None <-> ~ (In ifront FRONT /\ In irear REAR)).
Proof.
  destruct origin_invariant as [Hnone Hsome].
  split; [| split].
  - intros o Ho.
    destruct (Hsome o Ho) as (pre & c & post & Hc & Hcc & [Hf Hr] & Hpost).
    exists pre, c, post. auto.
  - intros Ho [Hf Hr].
    destruct (scan_has_cell FRONT REAR ifront irear Hf Hr) as (e & He & Ef & Er).
    exact (Hnone Ho e He (conj Ef Er)).
  - intros Hnot.
    destruct (Shiftseq.origin search) as [o|] eqn:Ho; [| reflexivity].
    destruct (Hsome o eq_refl) as (pre & c & post & Hc & _ & [Hf Hr] & _).
    assert (Hin : In c (cells FRONT REAR))
      by (rewrite Hc; apply in_or_app; right; now left).
    destruct (cell_of_scan FRONT REAR c Hin) as (_ & _ & Hf' & Hr').
    rewrite Hf in Hf'. rewrite Hr in Hr'. now elim Hnot.
Qed.
End Origin.

(** ** One application of the step rule *)

Section OneStep.
Context {F : Type} `{PyFloat F}.
Variables FRONT REAR : list Z.

Local Abbreviation find_next := (Shiftseq.find_next FRONT REAR).

(** X20: whatever [find_next] returns away from the goal, for integers on
    the grid or off it, is one shift from the current coordinate, one
    unit on one axis and never the diagonal, and exactly one shift closer
    to the goal; it lies between the current coordinate and the goal on
    both axes. *)
Theorem find_next_single_shift (a g c : coord) :
  a <> g ->
  find_next (fst a) (snd a) (fst g) (snd g) = Ok c ->
  Shiftseq.unit_step a c /\
  S (Shiftseq.distance c g) = Shiftseq.distance a g /\
  in_box a g c.
Proof.
  intros Hne Hc.
  assert (E : coord_eqb a g = false).
  { destruct (coord_eqb a g) eqn:E; [| reflexivity].
    apply coord_eqb_eq in E. contradiction. }
  destruct (find_next_step FRONT REAR a g c E Hc) as (Hstep & Hdist & _).
  split; [exact Hstep |]. split; [exact Hdist |].
  exact (find_next_in_box FRONT REAR a g c Hc).
Qed.
End OneStep.

(** From (0, 0) toward (1, 3) on the grid of the scripts. *)
Lemma find_next_single_shift_witness :
  Shiftseq.unit_step (0, 0) (1, 0) /\
  S (Shiftseq.distance (1, 0) (1, 3)) = Shiftseq.distance (0, 0) (1, 3) /\
  in_box (0, 0) (1, 3) (1, 0).
Proof.
  apply (find_next_single_shift (F:=float) default_front default_rear
           (0, 0) (1, 3) (1, 0)).
  - discriminate.
  - vm_compute. reflexivity.
Defined.
